(** * CubeSat EPS simulation: energy balance and state of charge

    A shallow embedding of [eps_simulation.py].  The script keeps its
    parameters in module-level constants, derives the time grid and the
    orbital angle from them, and then runs a nested loop (time steps, panel
    configurations) that writes three pre-allocated arrays in place.

    Numbers.  The script computes in binary floating point.  Here every
    float is an exact rational ([Q]); equalities between computed values are
    therefore stated with [==].  The two functions of the [math] module the
    script calls, [math.cos] and [math.radians], are not rational-valued and
    are taken as parameters of the development: the theorems hold for any
    pair of functions put in their place, and the one scenario that depends
    on a value of the cosine states the bounds it needs.

    Errors.  An outcome of the script is either the three arrays or an
    exception.  The exceptions the script can run into are written out:
    a zero time step or orbit period, an empty time grid, an empty list of
    panel counts.  A division of a numpy float by zero does not raise in
    Python (it yields [inf] or [nan]); the rational model has no such values
    and reports [NotFinite] at that point. *)

From Stdlib Require Import QArith Qround Qminmax Lia.
From Stdlib Require Import Reals Qreals Psatz.
From stdpp Require Import base option list.

Local Open Scope Q_scope.

(** ** Outcomes *)

Inductive exn : Type :=
  | ZeroDivisionError
  | IndexError
  | NameError
  | NotFinite.

Inductive result (A : Type) : Type :=
  | Ok (a : A)
  | Raise (e : exn).

Arguments Ok {A} a.
Arguments Raise {A} e.

Definition bind {A B : Type} (r : result A) (k : A -> result B) : result B :=
  match r with
  | Ok a => k a
  | Raise e => Raise e
  end.

Notation "'let*' x ':=' r 'in' k" := (bind r (fun x => k))
  (at level 10, x name, r at level 100, k at level 200, only parsing).

(** A loop [for x in xs: body] whose body may raise. *)
Fixpoint for_each {S I : Type} (xs : list I) (body : I -> S -> result S) (s : S)
  : result S :=
  match xs with
  | [] => Ok s
  | x :: xs' => let* s' := body x s in for_each xs' body s'
  end.

(** ** Numbers as the script uses them *)

(** [a < b] as a Python test. *)
Definition Qltb (a b : Q) : bool := negb (Qle_bool b a).

(** Python's builtin [max(a, b)]: the first argument unless the second is
    strictly greater. *)
Definition py_max (a b : Q) : Q := if Qltb a b then b else a.

Definition np_maximum (a b : Q) : Q := if Qltb a b then b else a.
Definition np_minimum (a b : Q) : Q := if Qltb b a then b else a.

(** [np.clip(x, lo, hi)] is [np.minimum(np.maximum(x, lo), hi)]. *)
Definition np_clip (x lo hi : Q) : Q := np_minimum (np_maximum x lo) hi.

(** [x % y] on floats: the remainder takes the sign of the divisor. *)
Definition np_mod (x y : Q) : Q := x - y * inject_Z (Qfloor (x / y)).

(** [x / y] where [x] is a numpy float.  For a zero divisor numpy warns
    and yields [inf] or [nan], and the script goes on with that value; no
    rational stands for it, and the model ends there with [NotFinite]. *)
Definition np_divide (x y : Q) : result Q :=
  if Qeq_bool y 0 then Raise NotFinite else Ok (x / y).

Definition Q_of_nat (n : nat) : Q := inject_Z (Z.of_nat n).

(** ** Arrays *)

Definition np_zeros (n : nat) : list Q := replicate n 0.
Definition np_zeros2 (n m : nat) : list (list Q) := replicate n (np_zeros m).

Definition getitem (a : list Q) (i : nat) : result Q :=
  match a !! i with
  | Some v => Ok v
  | None => Raise IndexError
  end.

Definition setitem (a : list Q) (i : nat) (v : Q) : result (list Q) :=
  if decide (i < length a)%nat then Ok (<[i := v]> a) else Raise IndexError.

Definition getitem2 (a : list (list Q)) (i j : nat) : result Q :=
  match a !! i with
  | Some row => getitem row j
  | None => Raise IndexError
  end.

Definition setitem2 (a : list (list Q)) (i j : nat) (v : Q)
  : result (list (list Q)) :=
  match a !! i with
  | Some row => let* row' := setitem row j v in Ok (<[i := row']> a)
  | None => Raise IndexError
  end.

(** [a[i, :] = v] *)
Definition setrow (a : list (list Q)) (i : nat) (v : Q)
  : result (list (list Q)) :=
  match a !! i with
  | Some row => Ok (<[i := replicate (length row) v]> a)
  | None => Raise IndexError
  end.

(** Reading a cell of a finished array, for statements. *)
Definition cell (a : list (list Q)) (i j : nat) : option Q :=
  match a !! i with
  | Some row => row !! j
  | None => None
  end.

(** ** Parameters (lines 8-56 of the script) *)

Record Config : Type := mkConfig {
  dt : Q;
  orbit_period : Q;
  num_orbits : Q;
  G_sun : Q;
  A_panel : Q;
  packing_eff : Q;
  num_panels : list Z;
  eta_cell : Q;
  eta_mppt : Q;
  eta_wiring : Q;
  P_OBC : Q;
  P_ADCS : Q;
  P_COMMS : Q;
  P_PAYLOAD : Q;
  P_TX : Q;
  TX_duration : Q;
  E_battery : Q;
  SOC_min : Q;
  SOC_max : Q;
  SOC_init : Q;
  fade_rate : Q;
  self_discharge_per_day : Q
}.

(** The values the script assigns. *)
Definition source_config : Config := {|
  dt := 100.0;
  orbit_period := 95 * 60;
  num_orbits := 100;
  G_sun := 1361;
  A_panel := 0.1 * 0.1;
  packing_eff := 0.5;
  num_panels := [1; 2; 3; 4; 5; 6]%Z;
  eta_cell := 0.30;
  eta_mppt := 0.95;
  eta_wiring := 0.97;
  P_OBC := 0.5;
  P_ADCS := 0.8;
  P_COMMS := 0.7;
  P_PAYLOAD := 0.5;
  P_TX := 15.0;
  TX_duration := 15 * 60;
  E_battery := 10.0;
  SOC_min := 0.2;
  SOC_max := 0.99;
  SOC_init := 0.6;
  fade_rate := 0.20;
  self_discharge_per_day := 0.02 / 30
|}.

(** The per-step quantities that do not depend on the panel configuration
    (lines 80-96). *)
Record Geometry : Type := mkGeometry {
  theta_i : Q;
  eclipse : Z;
  f_theta : Q;
  E_batt_eff : Q
}.

(** The state the main loop updates: the three arrays and the variable
    [P_load], which is unbound until the inner loop has run once. *)
Record State : Type := mkState {
  SOC : list (list Q);
  P_solar_hist : list (list Q);
  P_load_hist : list Q;
  P_load : option Q
}.

Section Simulation.

(** [math.cos] and [math.radians]. *)
Variable math_cos : Q -> Q.
Variable math_radians : Q -> Q.

Variable cfg : Config.

(** *** Derived constants *)

Definition t_end : Q := num_orbits cfg * orbit_period cfg.

(** [len(np.arange(0, t_end, dt))]: the ceiling of [t_end / dt], or zero
    when that is negative.  The quotient is the exact one; numpy takes the
    ceiling of the binary64 quotient, which is the same number whenever
    [t_end] and [dt] are integers below 2^53. *)
Definition N_t : nat := Z.to_nat (Qceiling (t_end / dt cfg)).

(** [time = np.arange(0, t_end, dt)] *)
Definition time : list Q := (fun i => Q_of_nat i * dt cfg) <$> seq 0 N_t.

Definition A_total : list Q :=
  (fun n => inject_Z n * A_panel cfg * packing_eff cfg) <$> num_panels cfg.

Definition P_max : list Q := (fun a => G_sun cfg * a) <$> A_total.

Definition P_load_nominal : Q :=
  P_OBC cfg + P_ADCS cfg + P_COMMS cfg + P_PAYLOAD cfg.

Definition TX_theta_width : Q := 360 * TX_duration cfg / orbit_period cfg.

Definition theta : list Q :=
  (fun x => 360.0 * np_mod x (orbit_period cfg) / orbit_period cfg) <$> time.

Definition N_p : nat := length (num_panels cfg).

(** *** One time step, before the configuration loop (lines 80-96) *)

Definition eclipse_of (th : Q) : Z :=
  if Qltb 120 th && Qltb th 270 then 0%Z else 1%Z.

Definition f_theta_of (th : Q) : Q :=
  let theta_eff := math_radians (th - 45) in
  let f := 0.6 + 0.4 * math_cos theta_eff in
  py_max f 0.0.

(** Lines 91-92. *)
Definition mission_years_of (time_t : Q) : Q :=
  let mission_days := time_t / (3600 * 24) in
  mission_days / 365.0.

(** Lines 95-96. *)
Definition battery_fade (mission_years : Q) : Q :=
  let E := E_battery cfg * (1 - fade_rate cfg * mission_years) in
  py_max E (0.3 * E_battery cfg).

Definition E_batt_eff_of (time_t : Q) : Q :=
  battery_fade (mission_years_of time_t).

Definition geometry_of (th time_t : Q) : Geometry :=
  {| theta_i := th;
     eclipse := eclipse_of th;
     f_theta := f_theta_of th;
     E_batt_eff := E_batt_eff_of time_t |}.

Definition geometry (t : nat) : result Geometry :=
  let* th := getitem theta t in
  let* time_t := getitem time t in
  Ok (geometry_of th time_t).

(** *** One configuration at one time step (lines 101-143) *)

(** Lines 101-108. *)
Definition solar_power (g : Geometry) (P_max_p : Q) : Q :=
  P_max_p * eta_cell cfg * eta_mppt cfg * eta_wiring cfg
  * f_theta g * inject_Z (eclipse g).

(** Lines 111-114. *)
Definition base_load (SOC_prev : Q) : Q :=
  if Qltb SOC_prev 0.30 then P_OBC cfg else P_load_nominal.

(** Lines 117-126. *)
Definition TX_on (g : Geometry) (SOC_prev : Q) : bool :=
  let E_batt_available := SOC_prev * E_batt_eff g in
  let E_TX := P_TX cfg * TX_duration cfg / 3600.0 in
  let E_load_TX := P_load_nominal * TX_duration cfg / 3600.0 in
  let E_reserve := 0.30 * E_batt_eff g in
  (eclipse g =? 1)%Z
  && (Qle_bool 0 (theta_i g) && Qle_bool (theta_i g) TX_theta_width)
  && Qltb (E_reserve + E_TX) (E_batt_available - E_load_TX).

(** Lines 111-129: the load after the transmission test. *)
Definition load_power (g : Geometry) (SOC_prev : Q) : Q :=
  let P_load := base_load SOC_prev in
  if TX_on g SOC_prev then P_load + P_TX cfg else P_load.

(** Lines 132-134. *)
Definition energy_delta (P_solar P_load : Q) : Q :=
  let dE := (P_solar - P_load) * dt cfg / 3600.0 in
  if Qltb 0 dE then dE * 0.95 else dE.

(** Line 139: the factor of the in-place multiplication. *)
Definition self_discharge_factor : Q :=
  1 - self_discharge_per_day cfg * dt cfg / (3600 * 24).

(** The body of the configuration loop. *)
Definition panel_step (t : nat) (g : Geometry) (p : nat) (s : State)
  : result State :=
  let* P_max_p := getitem P_max p in
  let P_solar := solar_power g P_max_p in
  let* SOC_prev := getitem2 (SOC s) (t - 1) p in
  let P_load := load_power g SOC_prev in
  let dE := energy_delta P_solar P_load in
  let* q := np_divide dE (E_batt_eff g) in
  let* SOC1 := setitem2 (SOC s) t p (SOC_prev + q) in
  let* x1 := getitem2 SOC1 t p in
  let* SOC2 := setitem2 SOC1 t p (x1 * self_discharge_factor) in
  let* x2 := getitem2 SOC2 t p in
  let* SOC3 := setitem2 SOC2 t p (np_clip x2 (SOC_min cfg) (SOC_max cfg)) in
  let* hist := setitem2 (P_solar_hist s) t p P_solar in
  Ok {| SOC := SOC3;
        P_solar_hist := hist;
        P_load_hist := P_load_hist s;
        P_load := Some P_load |}.

(** The body of the time loop (lines 80-145). *)
Definition time_step (t : nat) (s : State) : result State :=
  let* g := geometry t in
  let* s' := for_each (seq 0 N_p) (panel_step t g) s in
  match P_load s' with
  | None => Raise NameError
  | Some P_load_last =>
      let* hist := setitem (P_load_hist s') t P_load_last in
      Ok {| SOC := SOC s';
            P_solar_hist := P_solar_hist s';
            P_load_hist := hist;
            P_load := P_load s' |}
  end.

(** Lines 66-73: allocation and the initial state of charge. *)
Definition initial_state : result State :=
  let* SOC0 := setrow (np_zeros2 N_t N_p) 0 (SOC_init cfg) in
  Ok {| SOC := SOC0;
        P_solar_hist := np_zeros2 N_t N_p;
        P_load_hist := np_zeros N_t;
        P_load := None |}.

(** The script up to the end of the main loop.  The checks come in the
    order in which the script evaluates the expressions that can fail:
    [np.arange] (line 12), [TX_theta_width] (line 45), [SOC[0, :]]
    (line 70), then the loop. *)
Definition simulate : result State :=
  if Qeq_bool (dt cfg) 0 then Raise ZeroDivisionError
  else if Qeq_bool (orbit_period cfg) 0 then Raise ZeroDivisionError
  else
    let* s0 := initial_state in
    for_each (seq 1 (N_t - 1)) time_step s0.

(** *** The run seen as a recurrence

    What the loop computes, read off the loop body: the entries of
    [time] and [theta], the geometry of step [t], the value that lines
    136-141 leave in [SOC[t, p]], and the column of one configuration
    followed over time.  The invariant of the loop ([Inv] below) relates
    the arrays to these. *)

Definition time_at (t : nat) : Q := Q_of_nat t * dt cfg.

Definition theta_at (t : nat) : Q :=
  360.0 * np_mod (time_at t) (orbit_period cfg) / orbit_period cfg.

Definition geom (t : nat) : Geometry := geometry_of (theta_at t) (time_at t).

Definition P_max_at (p : nat) : Q := default 0 (P_max !! p).

Definition soc_next (g : Geometry) (P_max_p SOC_prev : Q) : Q :=
  let P_solar := solar_power g P_max_p in
  let P_load := load_power g SOC_prev in
  let dE := energy_delta P_solar P_load in
  np_clip ((SOC_prev + dE / E_batt_eff g) * self_discharge_factor)
          (SOC_min cfg) (SOC_max cfg).

Fixpoint soc_at (t p : nat) : Q :=
  match t with
  | O => SOC_init cfg
  | S t' => soc_next (geom t) (P_max_at p) (soc_at t' p)
  end.

(** Cell [(t, p)] has been written once the time loop has finished step
    [k] and the configuration loop of step [k + 1] has finished the
    columns below [j].  Row 0 is written by the initialisation. *)
Definition written (k j t p : nat) : bool :=
  (t <=? k)%nat || ((t =? S k)%nat && (p <? j)%nat).

Record Inv (k j : nat) (s : State) : Prop := mkInv {
  inv_SOC_len : length (SOC s) = N_t;
  inv_SOC_row : forall t row, SOC s !! t = Some row -> length row = N_p;
  inv_sol_len : length (P_solar_hist s) = N_t;
  inv_sol_row : forall t row, P_solar_hist s !! t = Some row -> length row = N_p;
  inv_load_len : length (P_load_hist s) = N_t;
  inv_SOC : forall t p, (t < N_t)%nat -> (p < N_p)%nat ->
    cell (SOC s) t p = Some (if written k j t p then soc_at t p else 0);
  inv_sol : forall t p, (t < N_t)%nat -> (p < N_p)%nat ->
    cell (P_solar_hist s) t p
    = Some (if (1 <=? t)%nat && written k j t p
            then solar_power (geom t) (P_max_at p) else 0);
  inv_load : forall t, (t < N_t)%nat ->
    P_load_hist s !! t
    = Some (if (1 <=? t)%nat && (t <=? k)%nat
            then load_power (geom t) (soc_at (t - 1) (N_p - 1)) else 0);
  inv_P_load : (0 < j)%nat ->
    P_load s = Some (load_power (geom (S k)) (soc_at k (j - 1)));
  inv_P_load_unbound : N_p = 0%nat -> P_load s = None
}.

End Simulation.


(** ** The update as the specification words it

    Section 4.4 of the specification, term by term: the net energy of the
    step, the charge derating of a positive net energy, the division by the
    effective capacity, the self-discharge multiplier and the clamp.  [Qmax]
    and [Qmin] are the Standard Library's. *)

Definition spec_clamp (x lo hi : Q) : Q := Qmin (Qmax x lo) hi.

Definition spec_net_energy (cfg : Config) (solar_power load_power : Q) : Q :=
  (solar_power - load_power) * dt cfg / 3600.

Definition spec_charge_derating (dE : Q) : Q :=
  if Qlt_le_dec 0 dE then 0.95 * dE else dE.

Definition spec_SOC_update (cfg : Config)
    (SOC_prev solar_power load_power capacity_eff : Q) : Q :=
  let dE := spec_net_energy cfg solar_power load_power in
  let dE' := spec_charge_derating dE in
  spec_clamp
    ((SOC_prev + dE' / capacity_eff)
     * (1 - self_discharge_per_day cfg * dt cfg / 86400))
    (SOC_min cfg) (SOC_max cfg).

(** ** Concrete runs

    Rational stand-ins for [math.radians] and [math.cos], used where a run
    is evaluated.  Both read their argument in lowest terms; the cosine is
    a Taylor polynomial of degree 48 summed in fixed point (18 decimals)
    and rounded to twelve decimals. *)

Definition radians_approx (x : Q) : Q :=
  Qred x * 3.141592653589793 / 180.

Definition fixed_one : Z := 1000000000000000000.

Fixpoint cos_series (n : nat) (k x2 term acc : Z) : Z :=
  match n with
  | O => acc
  | S n' =>
      let term' :=
        (- term * x2 / fixed_one / ((2 * k + 1) * (2 * k + 2)))%Z in
      cos_series n' (k + 1)%Z x2 term' (acc + term')%Z
  end.

Definition cos_approx (x : Q) : Q :=
  let xf := Qfloor (Qred x * inject_Z fixed_one) in
  let x2 := (xf * xf / fixed_one)%Z in
  let c := cos_series 24 0 x2 fixed_one fixed_one in
  Qred (inject_Z ((c + 500000) / 1000000) / 1000000000000).

(** The script's parameters on a coarse, two-orbit time grid: six time
    indices, orbital angles 0, 120 and 240 degrees. *)
Definition coarse_config : Config := {|
  dt := 1900.0;
  orbit_period := 95 * 60;
  num_orbits := 2;
  G_sun := 1361;
  A_panel := 0.1 * 0.1;
  packing_eff := 0.5;
  num_panels := [1; 2; 3; 4; 5; 6]%Z;
  eta_cell := 0.30;
  eta_mppt := 0.95;
  eta_wiring := 0.97;
  P_OBC := 0.5;
  P_ADCS := 0.8;
  P_COMMS := 0.7;
  P_PAYLOAD := 0.5;
  P_TX := 15.0;
  TX_duration := 15 * 60;
  E_battery := 10.0;
  SOC_min := 0.2;
  SOC_max := 0.99;
  SOC_init := 0.6;
  fade_rate := 0.20;
  self_discharge_per_day := 0.02 / 30
|}.

(** The script with its state-of-charge bounds exchanged and a negative
    cell efficiency: [SOC_min = 0.99 >= SOC_max = 0.2], [eta_cell = -0.30]. *)
Definition invalid_config : Config := {|
  dt := 100.0;
  orbit_period := 95 * 60;
  num_orbits := 100;
  G_sun := 1361;
  A_panel := 0.1 * 0.1;
  packing_eff := 0.5;
  num_panels := [1; 2; 3; 4; 5; 6]%Z;
  eta_cell := - 0.30;
  eta_mppt := 0.95;
  eta_wiring := 0.97;
  P_OBC := 0.5;
  P_ADCS := 0.8;
  P_COMMS := 0.7;
  P_PAYLOAD := 0.5;
  P_TX := 15.0;
  TX_duration := 15 * 60;
  E_battery := 10.0;
  SOC_min := 0.99;
  SOC_max := 0.2;
  SOC_init := 0.6;
  fade_rate := 0.20;
  self_discharge_per_day := 0.02 / 30
|}.

(** The arrays the script leaves on the coarse grid. *)
Definition coarse_out : State :=
  Eval vm_compute in
    match simulate cos_approx radians_approx coarse_config with
    | Ok s => s
    | Raise _ => mkState [] [] [] None
    end.

(** ** After the loop: sanity checks, summary and single-orbit slices

    Lines 176-178, 188-209 and 239-248 of the script read the finished
    arrays.  The plotting and printing calls are left out; what they are
    given is modelled here. *)

(** [a[:, p]] for an array whose rows have [m] entries. *)
Fixpoint getcol_rows (a : list (list Q)) (p : nat) : result (list Q) :=
  match a with
  | [] => Ok []
  | row :: a' =>
      let* v := getitem row p in
      let* rest := getcol_rows a' p in
      Ok (v :: rest)
  end.

Definition getcol (m : nat) (a : list (list Q)) (p : nat) : result (list Q) :=
  if decide (p < m)%nat then getcol_rows a p else Raise IndexError.

(** [np.min] and [np.max] of a one-dimensional array; [None] where numpy
    raises [ValueError] (a reduction over a zero-size array). *)
Definition np_min (l : list Q) : option Q :=
  match l with
  | [] => None
  | x :: l' => Some (fold_left np_minimum l' x)
  end.

Definition np_max (l : list Q) : option Q :=
  match l with
  | [] => None
  | x :: l' => Some (fold_left np_maximum l' x)
  end.

Definition np_sum (l : list Q) : Q := fold_left Qplus l 0.

(** [np.mean]: the sum over the length; of an empty array it is [nan]. *)
Definition np_mean (l : list Q) : result Q :=
  np_divide (np_sum l) (Q_of_nat (length l)).


(** Line 194: the verdict on a configuration. *)
Definition mission_viable (min_soc : Q) : bool := Qltb 0.25 min_soc.


(** [int(x)] on a float: truncation toward zero. *)
Definition py_int (x : Q) : Z := Z.quot (Qnum x) (Zpos (Qden x)).

(** [a[s:]]: a negative start counts from the end, and both directions
    stop at the ends of the array. *)
Definition py_slice_from {A : Type} (a : list A) (s : Z) : list A :=
  let n := Z.of_nat (length a) in
  let start := if (s <? 0)%Z then Z.max (n + s) 0 else Z.min s n in
  drop (Z.to_nat start) a.

(** Line 239. *)
Definition orbit_start (cfg : Config) : Z :=
  (- py_int (orbit_period cfg / dt cfg))%Z.

(** Lines 240-243. *)
Definition theta_orbit (cfg : Config) : list Q :=
  py_slice_from (theta cfg) (orbit_start cfg).

Definition SOC_orbit (cfg : Config) (s : State) : result (list Q) :=
  getcol (N_p cfg) (py_slice_from (SOC s) (orbit_start cfg)) 3.

Definition P_solar_orbit (cfg : Config) (s : State) : result (list Q) :=
  getcol (N_p cfg) (py_slice_from (P_solar_hist s) (orbit_start cfg)) 3.

Definition P_load_orbit (cfg : Config) (s : State) : list Q :=
  py_slice_from (P_load_hist s) (orbit_start cfg).

(** Line 248. *)
Definition eclipse_region (cfg : Config) : list bool :=
  (fun th => Qltb 120 th && Qltb th 270) <$> theta_orbit cfg.

(** ** The script with one constant edited *)

Definition with_num_panels (l : list Z) (c : Config) : Config := {|
  dt := dt c;
  orbit_period := orbit_period c;
  num_orbits := num_orbits c;
  G_sun := G_sun c;
  A_panel := A_panel c;
  packing_eff := packing_eff c;
  num_panels := l;
  eta_cell := eta_cell c;
  eta_mppt := eta_mppt c;
  eta_wiring := eta_wiring c;
  P_OBC := P_OBC c;
  P_ADCS := P_ADCS c;
  P_COMMS := P_COMMS c;
  P_PAYLOAD := P_PAYLOAD c;
  P_TX := P_TX c;
  TX_duration := TX_duration c;
  E_battery := E_battery c;
  SOC_min := SOC_min c;
  SOC_max := SOC_max c;
  SOC_init := SOC_init c;
  fade_rate := fade_rate c;
  self_discharge_per_day := self_discharge_per_day c
|}.

Definition with_num_orbits (n : Q) (c : Config) : Config := {|
  dt := dt c;
  orbit_period := orbit_period c;
  num_orbits := n;
  G_sun := G_sun c;
  A_panel := A_panel c;
  packing_eff := packing_eff c;
  num_panels := num_panels c;
  eta_cell := eta_cell c;
  eta_mppt := eta_mppt c;
  eta_wiring := eta_wiring c;
  P_OBC := P_OBC c;
  P_ADCS := P_ADCS c;
  P_COMMS := P_COMMS c;
  P_PAYLOAD := P_PAYLOAD c;
  P_TX := P_TX c;
  TX_duration := TX_duration c;
  E_battery := E_battery c;
  SOC_min := SOC_min c;
  SOC_max := SOC_max c;
  SOC_init := SOC_init c;
  fade_rate := fade_rate c;
  self_discharge_per_day := self_discharge_per_day c
|}.

(** The coarse grid over one orbit only, and with the panel counts in
    another order. *)
Definition coarse_one_orbit : Config := with_num_orbits 1 coarse_config.

Definition coarse_one_orbit_out : State :=
  Eval vm_compute in
    match simulate cos_approx radians_approx coarse_one_orbit with
    | Ok s => s
    | Raise _ => mkState [] [] [] None
    end.

Definition coarse_reordered : Config :=
  with_num_panels [6; 4; 1]%Z coarse_config.

Definition coarse_reordered_out : State :=
  Eval vm_compute in
    match simulate cos_approx radians_approx coarse_reordered with
    | Ok s => s
    | Raise _ => mkState [] [] [] None
    end.

Definition with_SOC_init (x : Q) (c : Config) : Config := {|
  dt := dt c;
  orbit_period := orbit_period c;
  num_orbits := num_orbits c;
  G_sun := G_sun c;
  A_panel := A_panel c;
  packing_eff := packing_eff c;
  num_panels := num_panels c;
  eta_cell := eta_cell c;
  eta_mppt := eta_mppt c;
  eta_wiring := eta_wiring c;
  P_OBC := P_OBC c;
  P_ADCS := P_ADCS c;
  P_COMMS := P_COMMS c;
  P_PAYLOAD := P_PAYLOAD c;
  P_TX := P_TX c;
  TX_duration := TX_duration c;
  E_battery := E_battery c;
  SOC_min := SOC_min c;
  SOC_max := SOC_max c;
  SOC_init := x;
  fade_rate := fade_rate c;
  self_discharge_per_day := self_discharge_per_day c
|}.

(** The coarse grid started in safe mode (initial state of charge 0.25)
    and started on the threshold itself (0.30). *)
Definition low_charge_config : Config := with_SOC_init 0.25 coarse_config.

Definition low_charge_out : State :=
  Eval vm_compute in
    match simulate cos_approx radians_approx low_charge_config with
    | Ok s => s
    | Raise _ => mkState [] [] [] None
    end.

Definition threshold_config : Config := with_SOC_init 0.30 coarse_config.

Definition threshold_out : State :=
  Eval vm_compute in
    match simulate cos_approx radians_approx threshold_config with
    | Ok s => s
    | Raise _ => mkState [] [] [] None
    end.

(** ** Comparisons, maximum and clamp *)

Lemma Qltb_lt (a b : Q) : Qltb a b = true <-> a < b.
Proof.
  unfold Qltb. rewrite negb_true_iff. split.
  - intros H. apply Qnot_le_lt. intros Hle.
    apply Qle_bool_iff in Hle. congruence.
  - intros H. destruct (Qle_bool b a) eqn:E; [|reflexivity].
    apply Qle_bool_iff in E. lra.
Qed.

Lemma Qltb_ge (a b : Q) : Qltb a b = false <-> b <= a.
Proof.
  unfold Qltb. rewrite negb_false_iff. apply Qle_bool_iff.
Qed.

Lemma Qltb_cases (a b : Q) :
  (Qltb a b = true /\ a < b) \/ (Qltb a b = false /\ b <= a).
Proof.
  destruct (Qltb a b) eqn:E.
  - left. split; [reflexivity|]. now apply Qltb_lt.
  - right. split; [reflexivity|]. now apply Qltb_ge.
Qed.

Ltac case_Qltb a b :=
  let H := fresh "Hcmp" in
  let E := fresh "Ecmp" in
  destruct (Qltb_cases a b) as [[E H]|[E H]]; rewrite ?E in *.

(** Division by a numeral, rewritten as a multiplication for [lra]. *)
Ltac qconst_inv :=
  unfold Qdiv in *;
  repeat match goal with
  | |- context [Qinv (Qmake ?n ?d)] =>
      let v := eval vm_compute in (Qinv (Qmake n d)) in
      change (Qinv (Qmake n d)) with v
  | |- context [Qinv (Qmult (Qmake ?n ?d) (Qmake ?n' ?d'))] =>
      let v := eval vm_compute in (Qinv (Qmult (Qmake n d) (Qmake n' d'))) in
      change (Qinv (Qmult (Qmake n d) (Qmake n' d'))) with v
  | H : context [Qinv (Qmake ?n ?d)] |- _ =>
      let v := eval vm_compute in (Qinv (Qmake n d)) in
      change (Qinv (Qmake n d)) with v in H
  | H : context [Qinv (Qmult (Qmake ?n ?d) (Qmake ?n' ?d'))] |- _ =>
      let v := eval vm_compute in (Qinv (Qmult (Qmake n d) (Qmake n' d'))) in
      change (Qinv (Qmult (Qmake n d) (Qmake n' d'))) with v in H
  end.


Lemma py_max_r (a b : Q) : b <= py_max a b.
Proof. unfold py_max. case_Qltb a b; lra. Qed.

Lemma py_max_lub (a b c : Q) : a <= c -> b <= c -> py_max a b <= c.
Proof. unfold py_max. case_Qltb a b; lra. Qed.

Lemma np_clip_upper (x lo hi : Q) : np_clip x lo hi <= hi.
Proof.
  unfold np_clip, np_minimum.
  case_Qltb hi (np_maximum x lo); lra.
Qed.

Lemma np_clip_lower (x lo hi : Q) : lo <= hi -> lo <= np_clip x lo hi.
Proof.
  intros Hb. unfold np_clip, np_minimum, np_maximum.
  case_Qltb x lo; [case_Qltb hi lo | case_Qltb hi x]; lra.
Qed.

Lemma np_clip_le (x lo hi y : Q) : x <= y -> lo <= y -> np_clip x lo hi <= y.
Proof.
  intros Hx Hlo. unfold np_clip, np_minimum, np_maximum.
  case_Qltb x lo; [case_Qltb hi lo | case_Qltb hi x]; lra.
Qed.

(** ** Array reads and writes *)

Lemma getitem_Some (a : list Q) (i : nat) (v : Q) :
  a !! i = Some v -> getitem a i = Ok v.
Proof. intros H. unfold getitem. now rewrite H. Qed.

Lemma setitem_lt (a : list Q) (i : nat) (v : Q) :
  (i < length a)%nat -> setitem a i v = Ok (<[i := v]> a).
Proof. intros H. unfold setitem. destruct (decide _); [reflexivity|lia]. Qed.

Lemma getitem2_cell (a : list (list Q)) (i j : nat) (v : Q) :
  cell a i j = Some v -> getitem2 a i j = Ok v.
Proof.
  unfold cell, getitem2. destruct (a !! i) as [row|]; [|discriminate].
  apply getitem_Some.
Qed.

(** A write at [(i, j)] followed by further writes at the same place
    leaves the last value only. *)
Lemma setitem2_row (a : list (list Q)) (i j : nat) (v : Q) (row : list Q) :
  a !! i = Some row -> (j < length row)%nat ->
  setitem2 a i j v = Ok (<[i := <[j := v]> row]> a).
Proof.
  intros Hrow Hj. unfold setitem2. rewrite Hrow.
  rewrite setitem_lt by exact Hj. reflexivity.
Qed.

Lemma setitem2_again (a : list (list Q)) (i j : nat) (v w : Q) (row : list Q) :
  a !! i = Some row -> (j < length row)%nat ->
  setitem2 (<[i := <[j := v]> row]> a) i j w = Ok (<[i := <[j := w]> row]> a).
Proof.
  intros Hrow Hj.
  assert (Hi : (i < length a)%nat) by (eapply lookup_lt_Some; eauto).
  rewrite (setitem2_row _ i j w (<[j := v]> row)).
  - now rewrite list_insert_insert_eq, list_insert_insert_eq.
  - now apply list_lookup_insert_eq.
  - now rewrite length_insert.
Qed.

Lemma getitem2_written (a : list (list Q)) (i j : nat) (v : Q) (row : list Q) :
  a !! i = Some row -> (j < length row)%nat ->
  getitem2 (<[i := <[j := v]> row]> a) i j = Ok v.
Proof.
  intros Hrow Hj.
  assert (Hi : (i < length a)%nat) by (eapply lookup_lt_Some; eauto).
  apply getitem2_cell. unfold cell.
  rewrite list_lookup_insert_eq by exact Hi.
  now apply list_lookup_insert_eq.
Qed.

Lemma cell_written (a : list (list Q)) (i j i' j' : nat) (v : Q) (row : list Q) :
  a !! i = Some row -> (j < length row)%nat ->
  cell (<[i := <[j := v]> row]> a) i' j'
  = if decide (i' = i /\ j' = j) then Some v else cell a i' j'.
Proof.
  intros Hrow Hj.
  assert (Hi : (i < length a)%nat) by (eapply lookup_lt_Some; eauto).
  unfold cell. destruct (decide (i' = i)) as [->|Hne].
  - rewrite list_lookup_insert_eq by exact Hi. rewrite Hrow.
    destruct (decide (j' = j)) as [->|Hnej].
    + rewrite decide_True by auto. now apply list_lookup_insert_eq.
    + rewrite decide_False by tauto. now apply list_lookup_insert_ne.
  - rewrite decide_False by tauto.
    now rewrite list_lookup_insert_ne by auto.
Qed.

(** ** The loop, step by step *)

Lemma written_iff (k j t p : nat) :
  written k j t p = true <-> (t <= k)%nat \/ (t = S k /\ p < j)%nat.
Proof.
  unfold written.
  rewrite orb_true_iff, andb_true_iff, Nat.leb_le, Nat.eqb_eq, Nat.ltb_lt.
  tauto.
Qed.

Lemma written_next_column (k j t p : nat) :
  ~ (t = S k /\ p = j) -> written k (S j) t p = written k j t p.
Proof.
  intros Hne. apply eq_true_iff_eq. rewrite !written_iff. lia.
Qed.

Lemma written_next_row (k n t p : nat) :
  (p < n)%nat -> written (S k) 0 t p = written k n t p.
Proof.
  intros Hp. apply eq_true_iff_eq. rewrite !written_iff. lia.
Qed.

Section Steps.

Variable math_cos : Q -> Q.
Variable math_radians : Q -> Q.
Variable cfg : Config.

Local Abbreviation geom := (geom math_cos math_radians cfg).
Local Abbreviation soc_at := (soc_at math_cos math_radians cfg).
Local Abbreviation Inv := (Inv math_cos math_radians cfg).
Local Abbreviation step := (time_step math_cos math_radians cfg).
Local Abbreviation run := (simulate math_cos math_radians cfg).
Local Abbreviation N_t := (N_t cfg).
Local Abbreviation N_p := (N_p cfg).

Lemma time_lookup (t : nat) :
  (t < N_t)%nat -> time cfg !! t = Some (time_at cfg t).
Proof.
  intros Ht. unfold time. rewrite list_lookup_fmap.
  rewrite lookup_seq_lt by exact Ht. reflexivity.
Qed.

Lemma theta_lookup (t : nat) :
  (t < N_t)%nat -> theta cfg !! t = Some (theta_at cfg t).
Proof.
  intros Ht. unfold theta. rewrite list_lookup_fmap.
  rewrite time_lookup by exact Ht. reflexivity.
Qed.

Lemma theta_length : length (theta cfg) = N_t.
Proof. unfold theta, time. now rewrite !length_fmap, length_seq. Qed.

Lemma geometry_Ok (t : nat) :
  (t < N_t)%nat -> geometry math_cos math_radians cfg t = Ok (geom t).
Proof.
  intros Ht. unfold geometry.
  rewrite (getitem_Some _ _ _ (theta_lookup t Ht)).
  rewrite (getitem_Some _ _ _ (time_lookup t Ht)). reflexivity.
Qed.

Lemma P_max_length : length (P_max cfg) = N_p.
Proof. unfold P_max, A_total. now rewrite !length_fmap. Qed.

Lemma P_max_lookup (p : nat) :
  (p < N_p)%nat -> P_max cfg !! p = Some (P_max_at cfg p).
Proof.
  intros Hp. unfold P_max_at.
  destruct (P_max cfg !! p) eqn:E; [reflexivity|].
  apply lookup_ge_None_1 in E. rewrite P_max_length in E. lia.
Qed.

(** One pass through the body of the configuration loop. *)
Lemma panel_step_Inv (k j : nat) (s : State) :
  Inv k j s -> (S k < N_t)%nat -> (j < N_p)%nat ->
  exists s',
    panel_step cfg (S k) (geom (S k)) j s
    = (if Qeq_bool (E_batt_eff (geom (S k))) 0 then Raise NotFinite else Ok s')
    /\ Inv k (S j) s'.
Proof.
  intros I Hk Hj.
  destruct (lookup_lt_is_Some_2 (SOC s) (S k)) as [row Hrow];
    [rewrite (inv_SOC_len _ _ _ _ _ _ I); exact Hk|].
  destruct (lookup_lt_is_Some_2 (P_solar_hist s) (S k)) as [hrow Hhrow];
    [rewrite (inv_sol_len _ _ _ _ _ _ I); exact Hk|].
  pose proof (inv_SOC_row _ _ _ _ _ _ I _ _ Hrow) as Hlen.
  pose proof (inv_sol_row _ _ _ _ _ _ I _ _ Hhrow) as Hhlen.
  assert (Hprev : cell (SOC s) k j = Some (soc_at k j)).
  { rewrite (inv_SOC _ _ _ _ _ _ I) by lia.
    replace (written k j k j) with true; [reflexivity|].
    symmetry. apply written_iff. lia. }
  set (g := geom (S k)).
  set (x := soc_at k j) in *.
  set (pm := P_max_at cfg j).
  exists {| SOC := <[S k := <[j := soc_next cfg g pm x]> row]> (SOC s);
            P_solar_hist := <[S k := <[j := solar_power cfg g pm]> hrow]> (P_solar_hist s);
            P_load_hist := P_load_hist s;
            P_load := Some (load_power cfg g x) |}.
  split.
  - unfold panel_step.
    rewrite (getitem_Some _ _ _ (P_max_lookup j Hj)). cbn [bind].
    replace (S k - 1)%nat with k by lia.
    rewrite (getitem2_cell _ _ _ _ Hprev). cbn [bind].
    unfold np_divide. fold pm.
    destruct (Qeq_bool (E_batt_eff g) 0); [reflexivity|]. cbn [bind].
    rewrite (setitem2_row _ _ _ _ row) by (auto; lia). cbn [bind].
    rewrite getitem2_written by (auto; lia). cbn [bind].
    rewrite setitem2_again by (auto; lia). cbn [bind].
    rewrite getitem2_written by (auto; lia). cbn [bind].
    rewrite setitem2_again by (auto; lia). cbn [bind].
    rewrite (setitem2_row _ _ _ _ hrow) by (auto; lia). cbn [bind].
    reflexivity.
  - constructor; cbn [SOC P_solar_hist P_load_hist P_load].
    + rewrite length_insert. apply (inv_SOC_len _ _ _ _ _ _ I).
    + intros t r Hr. destruct (decide (t = S k)) as [->|Hne].
      * rewrite list_lookup_insert_eq in Hr
          by (rewrite (inv_SOC_len _ _ _ _ _ _ I); exact Hk).
        injection Hr as <-. now rewrite length_insert.
      * rewrite list_lookup_insert_ne in Hr by auto.
        apply (inv_SOC_row _ _ _ _ _ _ I _ _ Hr).
    + rewrite length_insert. apply (inv_sol_len _ _ _ _ _ _ I).
    + intros t r Hr. destruct (decide (t = S k)) as [->|Hne].
      * rewrite list_lookup_insert_eq in Hr
          by (rewrite (inv_sol_len _ _ _ _ _ _ I); exact Hk).
        injection Hr as <-. now rewrite length_insert.
      * rewrite list_lookup_insert_ne in Hr by auto.
        apply (inv_sol_row _ _ _ _ _ _ I _ _ Hr).
    + apply (inv_load_len _ _ _ _ _ _ I).
    + intros t p Ht Hp. rewrite cell_written by (auto; lia).
      destruct (decide (t = S k /\ p = j)) as [[-> ->]|Hne].
      * replace (written k (S j) (S k) j) with true
          by (symmetry; apply written_iff; lia).
        reflexivity.
      * rewrite written_next_column by exact Hne.
        apply (inv_SOC _ _ _ _ _ _ I); assumption.
    + intros t p Ht Hp. rewrite cell_written by (auto; lia).
      destruct (decide (t = S k /\ p = j)) as [[-> ->]|Hne].
      * replace (written k (S j) (S k) j) with true
          by (symmetry; apply written_iff; lia).
        reflexivity.
      * rewrite written_next_column by exact Hne.
        apply (inv_sol _ _ _ _ _ _ I); assumption.
    + apply (inv_load _ _ _ _ _ _ I).
    + intros _. replace (S j - 1)%nat with j by lia. reflexivity.
    + intros H0. lia.
Qed.

(** The configuration loop of step [k + 1], entered at column [j]:
    it stops at its first pass when the capacity of the step is zero, and
    otherwise fills the rest of the row. *)
Lemma config_loop_Inv (k n j : nat) (s : State) :
  (j + n = N_p)%nat -> Inv k j s -> (S k < N_t)%nat ->
  ((0 < n)%nat /\ Qeq_bool (E_batt_eff (geom (S k))) 0 = true
   /\ for_each (seq j n) (panel_step cfg (S k) (geom (S k))) s = Raise NotFinite)
  \/ (((0 < n)%nat -> Qeq_bool (E_batt_eff (geom (S k))) 0 = false)
      /\ exists s',
           for_each (seq j n) (panel_step cfg (S k) (geom (S k))) s = Ok s'
           /\ Inv k N_p s').
Proof.
  revert j s. induction n as [|n IH]; intros j s Hn I Hk.
  - right. split; [lia|]. exists s. split; [reflexivity|].
    replace N_p with j by lia. exact I.
  - destruct (panel_step_Inv k j s I Hk) as (s1 & Hs1 & I1); [lia|].
    cbn [seq for_each]. rewrite Hs1.
    destruct (Qeq_bool (E_batt_eff (geom (S k))) 0) eqn:E.
    + left. split; [lia|]. split; reflexivity.
    + right. split; [reflexivity|]. cbn [bind].
      destruct (IH (S j) s1) as [(_ & E' & _)|(_ & s2 & Hs2 & I2)];
        [lia|exact I1|exact Hk|congruence|].
      exists s2. split; [exact Hs2|exact I2].
Qed.

(** One pass through the body of the time loop. *)
Lemma time_step_Inv (k : nat) (s : State) :
  Inv k 0 s -> (S k < N_t)%nat ->
  (N_p = 0%nat /\ step (S k) s = Raise NameError)
  \/ ((0 < N_p)%nat /\ Qeq_bool (E_batt_eff (geom (S k))) 0 = true
      /\ step (S k) s = Raise NotFinite)
  \/ ((0 < N_p)%nat /\ Qeq_bool (E_batt_eff (geom (S k))) 0 = false
      /\ exists s', step (S k) s = Ok s' /\ Inv (S k) 0 s').
Proof.
  intros I Hk. unfold time_step.
  rewrite geometry_Ok by exact Hk. cbn [bind].
  destruct (config_loop_Inv k N_p 0 s) as [(Hn & E & Hs)|(E & s1 & Hs1 & I1)];
    [lia|exact I|exact Hk| |].
  - right. left. rewrite Hs. auto.
  - rewrite Hs1. cbn [bind].
    destruct (Nat.eq_dec N_p 0%nat) as [H0|H0].
    + left. split; [exact H0|].
      now rewrite (inv_P_load_unbound _ _ _ _ _ _ I1 H0).
    + right. right. split; [lia|]. split; [apply E; lia|].
      rewrite (inv_P_load _ _ _ _ _ _ I1) by lia.
      rewrite setitem_lt by (rewrite (inv_load_len _ _ _ _ _ _ I1); exact Hk).
      cbn [bind]. eexists. split; [reflexivity|].
      constructor; cbn [SOC P_solar_hist P_load_hist P_load].
      * apply (inv_SOC_len _ _ _ _ _ _ I1).
      * apply (inv_SOC_row _ _ _ _ _ _ I1).
      * apply (inv_sol_len _ _ _ _ _ _ I1).
      * apply (inv_sol_row _ _ _ _ _ _ I1).
      * rewrite length_insert. apply (inv_load_len _ _ _ _ _ _ I1).
      * intros t p Ht Hp. rewrite (written_next_row k N_p) by exact Hp.
        apply (inv_SOC _ _ _ _ _ _ I1); assumption.
      * intros t p Ht Hp. rewrite (written_next_row k N_p) by exact Hp.
        apply (inv_sol _ _ _ _ _ _ I1); assumption.
      * intros t Ht. destruct (decide (t = S k)) as [->|Hne].
        -- rewrite list_lookup_insert_eq
             by (rewrite (inv_load_len _ _ _ _ _ _ I1); exact Hk).
           rewrite Nat.leb_refl. cbn [Nat.leb andb].
           replace (S k - 1)%nat with k by lia. reflexivity.
        -- rewrite list_lookup_insert_ne by auto.
           rewrite (inv_load _ _ _ _ _ _ I1) by exact Ht.
           replace (t <=? S k)%nat with (t <=? k)%nat; [reflexivity|].
           apply eq_true_iff_eq. rewrite !Nat.leb_le. lia.
      * intros H. lia.
      * intros H. lia.
Qed.

(** The time loop, entered at step [k + 1] with [n] steps to go. *)
Lemma main_loop_Ok (n k : nat) (s s' : State) :
  (S k + n = N_t)%nat -> Inv k 0 s ->
  for_each (seq (S k) n) step s = Ok s' ->
  Inv (N_t - 1) 0 s'
  /\ ((0 < n)%nat -> (0 < N_p)%nat)
  /\ (forall t, (S k <= t < N_t)%nat ->
        Qeq_bool (E_batt_eff (geom t)) 0 = false).
Proof.
  revert k s. induction n as [|n IH]; intros k s Hn I Hrun.
  - cbn in Hrun. injection Hrun as <-.
    replace (N_t - 1)%nat with k by lia.
    split; [exact I|]. split; intros; lia.
  - cbn [seq for_each] in Hrun.
    destruct (time_step_Inv k s I) as [(_ & Hs)|[(_ & _ & Hs)|(Hp & E & s1 & Hs & I1)]];
      [lia|rewrite Hs in Hrun; discriminate|rewrite Hs in Hrun; discriminate|].
    rewrite Hs in Hrun. cbn [bind] in Hrun.
    destruct (IH (S k) s1) as (I' & _ & E'); [lia|exact I1|exact Hrun|].
    split; [exact I'|]. split; [intros _; exact Hp|].
    intros t Ht. destruct (decide (t = S k)) as [->|Hne]; [exact E|].
    apply E'. lia.
Qed.

Lemma main_loop_total (n k : nat) (s : State) :
  (S k + n = N_t)%nat -> Inv k 0 s ->
  ((0 < n)%nat -> (0 < N_p)%nat) ->
  (forall t, (S k <= t < N_t)%nat ->
     Qeq_bool (E_batt_eff (geom t)) 0 = false) ->
  exists s', for_each (seq (S k) n) step s = Ok s'.
Proof.
  revert k s. induction n as [|n IH]; intros k s Hn I Hp E.
  - exists s. reflexivity.
  - cbn [seq for_each].
    destruct (time_step_Inv k s I) as [(H0 & _)|[(_ & E' & _)|(_ & _ & s1 & Hs & I1)]];
      [lia|lia| |].
    + rewrite E in E' by lia. discriminate.
    + rewrite Hs. cbn [bind]. apply (IH (S k) s1); [lia|exact I1| |].
      * intros _. apply Hp. lia.
      * intros t Ht. apply E. lia.
Qed.

Lemma main_loop_NameError (n k : nat) (s : State) :
  (S k + S n = N_t)%nat -> Inv k 0 s -> N_p = 0%nat ->
  for_each (seq (S k) (S n)) step s = Raise NameError.
Proof.
  intros Hn I H0. cbn [seq for_each].
  destruct (time_step_Inv k s I) as [(_ & Hs)|[(Hp & _)|(Hp & _)]];
    [lia| |lia|lia].
  now rewrite Hs.
Qed.

(** Lines 66-73. *)
Lemma initial_state_Inv :
  (0 < N_t)%nat -> exists s0, initial_state cfg = Ok s0 /\ Inv 0 0 s0.
Proof.
  intros Ht. unfold initial_state, setrow, np_zeros2.
  rewrite lookup_replicate_2 by exact Ht. cbn [bind].
  eexists. split; [reflexivity|].
  unfold np_zeros. rewrite length_replicate.
  constructor; cbn [SOC P_solar_hist P_load_hist P_load].
  - now rewrite length_insert, length_replicate.
  - intros t row Hrow. destruct (decide (t = 0%nat)) as [->|Hne].
    + rewrite list_lookup_insert_eq in Hrow by (now rewrite length_replicate).
      injection Hrow as <-. apply length_replicate.
    + rewrite list_lookup_insert_ne in Hrow by auto.
      apply lookup_replicate in Hrow as [-> _]. apply length_replicate.
  - apply length_replicate.
  - intros t row Hrow. apply lookup_replicate in Hrow as [-> _].
    apply length_replicate.
  - apply length_replicate.
  - intros t p Ht' Hp. unfold cell.
    destruct t as [|t].
    + rewrite list_lookup_insert_eq by (now rewrite length_replicate).
      now rewrite lookup_replicate_2 by exact Hp.
    + rewrite list_lookup_insert_ne by auto.
      rewrite lookup_replicate_2 by exact Ht'.
      rewrite lookup_replicate_2 by exact Hp.
      destruct (written 0 0 (S t) p) eqn:W; [|reflexivity].
      apply written_iff in W. lia.
  - intros t p Ht' Hp. unfold cell.
    rewrite lookup_replicate_2 by exact Ht'.
    rewrite lookup_replicate_2 by exact Hp.
    destruct (written 0 0 t p) eqn:W; [|now rewrite andb_false_r].
    apply written_iff in W. now replace t with 0%nat by lia.
  - intros t Ht'. rewrite lookup_replicate_2 by exact Ht'.
    destruct t as [|[|t]]; reflexivity.
  - intros H. lia.
  - reflexivity.
Qed.

Lemma initial_state_IndexError :
  N_t = 0%nat -> initial_state cfg = Raise IndexError.
Proof.
  intros H0. unfold initial_state, setrow, np_zeros2. now rewrite H0.
Qed.

(** A run that ends without an exception leaves every cell written. *)
Lemma simulate_Ok_Inv (out : State) :
  run = Ok out ->
  Inv (N_t - 1) 0 out
  /\ (0 < N_t)%nat
  /\ ((1 < N_t)%nat -> (0 < N_p)%nat)
  /\ (forall t, (1 <= t < N_t)%nat ->
        Qeq_bool (E_batt_eff (geom t)) 0 = false).
Proof.
  unfold simulate. intros Hrun.
  destruct (Qeq_bool (dt cfg) 0); [discriminate|].
  destruct (Qeq_bool (orbit_period cfg) 0); [discriminate|].
  destruct (Nat.eq_dec N_t 0%nat) as [H0|H0].
  { rewrite initial_state_IndexError in Hrun by exact H0. discriminate. }
  destruct initial_state_Inv as (s0 & Hs0 & I0); [lia|].
  rewrite Hs0 in Hrun. cbn [bind] in Hrun.
  destruct (main_loop_Ok (N_t - 1) 0 s0 out) as (I & Hp & E);
    [lia|exact I0|exact Hrun|].
  split; [exact I|]. split; [lia|]. split; [intros; apply Hp; lia|exact E].
Qed.

(** The run ends without an exception as soon as none of the four
    failures can occur. *)
Lemma simulate_total :
  ~ dt cfg == 0 -> ~ orbit_period cfg == 0 -> (0 < N_t)%nat ->
  ((1 < N_t)%nat -> (0 < N_p)%nat) ->
  (forall t, (1 <= t < N_t)%nat -> ~ E_batt_eff (geom t) == 0) ->
  exists out, run = Ok out.
Proof.
  intros Hdt Hop Ht Hp E. unfold simulate.
  destruct (Qeq_bool (dt cfg) 0) eqn:E1;
    [apply Qeq_bool_iff in E1; contradiction|].
  destruct (Qeq_bool (orbit_period cfg) 0) eqn:E2;
    [apply Qeq_bool_iff in E2; contradiction|].
  destruct initial_state_Inv as (s0 & Hs0 & I0); [exact Ht|].
  rewrite Hs0. cbn [bind].
  apply (main_loop_total (N_t - 1) 0 s0); [lia|exact I0| |].
  - intros Hn. apply Hp. lia.
  - intros t Ht'. destruct (Qeq_bool (E_batt_eff (geom t)) 0) eqn:E3;
      [|reflexivity].
    apply Qeq_bool_iff in E3. destruct (E t); [lia|exact E3].
Qed.

End Steps.

(** ** What a finished run holds *)

Section Finished.

Variable math_cos : Q -> Q.
Variable math_radians : Q -> Q.
Variable cfg : Config.
Variable out : State.
Hypothesis Hrun : simulate math_cos math_radians cfg = Ok out.

Local Abbreviation geom := (geom math_cos math_radians cfg).
Local Abbreviation soc_at := (soc_at math_cos math_radians cfg).

Lemma written_at_end (t p : nat) :
  (t < N_t cfg)%nat -> written (N_t cfg - 1) 0 t p = true.
Proof. intros Ht. apply written_iff. lia. Qed.

Lemma run_SOC (t p : nat) :
  (t < N_t cfg)%nat -> (p < N_p cfg)%nat ->
  cell (SOC out) t p = Some (soc_at t p).
Proof.
  intros Ht Hp. destruct (simulate_Ok_Inv _ _ _ _ Hrun) as (I & _).
  rewrite (inv_SOC _ _ _ _ _ _ I) by assumption.
  now rewrite written_at_end.
Qed.

Lemma run_solar (t p : nat) :
  (1 <= t < N_t cfg)%nat -> (p < N_p cfg)%nat ->
  cell (P_solar_hist out) t p
  = Some (solar_power cfg (geom t) (P_max_at cfg p)).
Proof.
  intros Ht Hp. destruct (simulate_Ok_Inv _ _ _ _ Hrun) as (I & _).
  rewrite (inv_sol _ _ _ _ _ _ I) by (assumption || lia).
  rewrite written_at_end by lia.
  now replace (1 <=? t)%nat with true by (symmetry; apply Nat.leb_le; lia).
Qed.

Lemma run_solar_first (p : nat) :
  (p < N_p cfg)%nat -> cell (P_solar_hist out) 0 p = Some 0.
Proof.
  intros Hp. destruct (simulate_Ok_Inv _ _ _ _ Hrun) as (I & Ht & _).
  now rewrite (inv_sol _ _ _ _ _ _ I) by assumption.
Qed.

Lemma run_load (t : nat) :
  (1 <= t < N_t cfg)%nat ->
  P_load_hist out !! t
  = Some (load_power cfg (geom t) (soc_at (t - 1) (N_p cfg - 1))).
Proof.
  intros Ht. destruct (simulate_Ok_Inv _ _ _ _ Hrun) as (I & _).
  rewrite (inv_load _ _ _ _ _ _ I) by lia.
  replace (1 <=? t)%nat with true by (symmetry; apply Nat.leb_le; lia).
  now replace (t <=? N_t cfg - 1)%nat with true
    by (symmetry; apply Nat.leb_le; lia).
Qed.

Lemma run_panels (t : nat) : (1 <= t < N_t cfg)%nat -> (0 < N_p cfg)%nat.
Proof.
  intros Ht. destruct (simulate_Ok_Inv _ _ _ _ Hrun) as (_ & _ & Hp & _).
  apply Hp. lia.
Qed.

Lemma run_capacity (t : nat) :
  (1 <= t < N_t cfg)%nat -> ~ E_batt_eff (geom t) == 0.
Proof.
  intros Ht. destruct (simulate_Ok_Inv _ _ _ _ Hrun) as (_ & _ & _ & E).
  apply Qeq_bool_neq, E, Ht.
Qed.

End Finished.

Lemma soc_next_bounds (cfg : Config) (g : Geometry) (pm x : Q) :
  SOC_min cfg <= SOC_max cfg ->
  SOC_min cfg <= soc_next cfg g pm x <= SOC_max cfg.
Proof.
  intros Hb. unfold soc_next. split.
  - now apply np_clip_lower.
  - apply np_clip_upper.
Qed.

(** [np.clip] saturates and its bounds are inclusive. *)
Lemma np_clip_cases (x lo hi : Q) :
  lo <= hi ->
  (lo <= x <= hi -> np_clip x lo hi = x)
  /\ (x < lo -> np_clip x lo hi = lo)
  /\ (hi < x -> np_clip x lo hi = hi).
Proof.
  intros Hb. unfold np_clip, np_minimum, np_maximum.
  repeat split; intros H;
    (case_Qltb x lo; [case_Qltb hi lo|case_Qltb hi x]);
    try reflexivity; lra.
Qed.

(** C1.  In a finished run every stored state of charge lies in
    [[SOC_min, SOC_max]], provided [SOC_init] does; from the first step on
    the stored value is the result of [np.clip], which keeps a value
    within the bounds (the bounds included) and replaces any other by the
    bound it has passed. *)
Theorem SOC_clamp_invariant
    (math_cos math_radians : Q -> Q) (cfg : Config) (out : State) :
  simulate math_cos math_radians cfg = Ok out ->
  SOC_min cfg <= SOC_init cfg <= SOC_max cfg ->
  forall t p, (t < N_t cfg)%nat -> (p < N_p cfg)%nat ->
  exists v,
    cell (SOC out) t p = Some v
    /\ SOC_min cfg <= v <= SOC_max cfg
    /\ ((1 <= t)%nat ->
        exists x,
          v = np_clip x (SOC_min cfg) (SOC_max cfg)
          /\ (SOC_min cfg <= x <= SOC_max cfg -> v = x)
          /\ (x < SOC_min cfg -> v = SOC_min cfg)
          /\ (SOC_max cfg < x -> v = SOC_max cfg)).
Proof.
  intros Hrun Hinit t p Ht Hp.
  exists (soc_at math_cos math_radians cfg t p).
  split; [now apply run_SOC|].
  destruct t as [|t]; cbn [soc_at].
  - split; [exact Hinit|]. intros H. lia.
  - split; [apply soc_next_bounds; lra|].
    intros _. unfold soc_next. eexists. split; [reflexivity|].
    apply np_clip_cases. lra.
Qed.

Lemma coarse_run :
  simulate cos_approx radians_approx coarse_config = Ok coarse_out.
Proof. vm_compute. reflexivity. Qed.

Lemma SOC_clamp_invariant_witness :
  simulate cos_approx radians_approx coarse_config = Ok coarse_out
  /\ 0.2 <= 0.6 <= 0.99
  /\ exists v, cell (SOC coarse_out) 4 4 = Some v /\ 0.2 <= v <= 0.99.
Proof.
  split; [exact coarse_run|]. split; [lra|].
  destruct (SOC_clamp_invariant cos_approx radians_approx coarse_config
              coarse_out coarse_run) with (t := 4%nat) (p := 4%nat)
    as (v & Hv & Hb & _).
  - vm_compute. split; discriminate.
  - vm_compute. lia.
  - vm_compute. lia.
  - exists v. split; [exact Hv|exact Hb].
Defined.

(** On the coarse grid the five-panel configuration saturates at step 4:
    the stored value is [SOC_max] itself. *)
Example coarse_saturation :
  cell (SOC coarse_out) 4 4 = Some 0.99.
Proof. reflexivity. Qed.

Lemma np_clip_spec_clamp (x x' lo hi : Q) :
  x == x' -> np_clip x lo hi == spec_clamp x' lo hi.
Proof.
  intros Hx. unfold np_clip, np_minimum, np_maximum, spec_clamp.
  destruct (Q.max_spec x' lo) as [[H1 E1]|[H1 E1]];
    destruct (Q.min_spec (Qmax x' lo) hi) as [[H2 E2]|[H2 E2]];
    (case_Qltb x lo; [case_Qltb hi lo|case_Qltb hi x]); lra.
Qed.

Lemma energy_delta_spec (cfg : Config) (solar load : Q) :
  energy_delta cfg solar load
  == spec_charge_derating (spec_net_energy cfg solar load).
Proof.
  unfold energy_delta, spec_charge_derating, spec_net_energy.
  set (e := (solar - load) * dt cfg).
  destruct (Qlt_le_dec 0 (e / 3600)) as [H|H];
    case_Qltb 0 (e / 3600.0); qconst_inv; lra.
Qed.

(** One step of discharge with the script's constants: no solar power, a
    load of 2.5 W and a capacity of 10 Wh take 2.5 * 100 / 3600 Wh out of the
    battery, which is not derated, and the state of charge 0.6 becomes
    (0.6 - 0.25 / 36) * (1 - 1 / 1296000). *)
Example discharge_step :
  energy_delta source_config 0 2.5 == - (2.5 * 100 / 3600)
  /\ spec_SOC_update source_config 0.6 0 2.5 10
     == (0.6 - 0.25 / 36) * (1 - 1 / 1296000).
Proof. split; vm_compute; reflexivity. Qed.

(** One step of charge: a positive net energy is derated by 0.95. *)
Example charge_step :
  energy_delta source_config 6.1 2.5 == 0.95 * (3.6 * 100 / 3600).
Proof. vm_compute. reflexivity. Qed.

(** C2.  From the first step on, the stored state of charge is the
    specification's update of the previous one: net energy of the step,
    derated by 0.95 when positive, divided by the effective capacity, then
    the self-discharge multiplier, then the clamp. *)
Theorem SOC_update_formula
    (math_cos math_radians : Q -> Q) (cfg : Config) (out : State) :
  simulate math_cos math_radians cfg = Ok out ->
  forall t p, (1 <= t < N_t cfg)%nat -> (p < N_p cfg)%nat ->
  exists SOC_prev SOC_new solar th time_t,
    cell (SOC out) (t - 1) p = Some SOC_prev
    /\ cell (SOC out) t p = Some SOC_new
    /\ cell (P_solar_hist out) t p = Some solar
    /\ theta cfg !! t = Some th
    /\ time cfg !! t = Some time_t
    /\ SOC_new
       == spec_SOC_update cfg SOC_prev solar
            (load_power cfg (geometry_of math_cos math_radians cfg th time_t)
               SOC_prev)
            (E_batt_eff_of cfg time_t).
Proof.
  intros Hrun t p Ht Hp.
  exists (soc_at math_cos math_radians cfg (t - 1) p),
         (soc_at math_cos math_radians cfg t p),
         (solar_power cfg (geom math_cos math_radians cfg t) (P_max_at cfg p)),
         (theta_at cfg t), (time_at cfg t).
  split; [apply (run_SOC _ _ _ _ Hrun); lia|].
  split; [apply (run_SOC _ _ _ _ Hrun); lia|].
  split; [now apply (run_solar _ _ _ _ Hrun)|].
  split; [apply theta_lookup; lia|].
  split; [apply time_lookup; lia|].
  destruct t as [|t]; [lia|].
  replace (S t - 1)%nat with t by lia. cbn [soc_at].
  unfold soc_next, spec_SOC_update.
  apply np_clip_spec_clamp.
  rewrite energy_delta_spec.
  unfold self_discharge_factor, geom, geometry_of. cbn [E_batt_eff].
  qconst_inv. ring.
Qed.

Lemma SOC_update_formula_witness :
  simulate cos_approx radians_approx coarse_config = Ok coarse_out
  /\ exists SOC_prev SOC_new solar th time_t,
       cell (SOC coarse_out) (3 - 1) 5 = Some SOC_prev
       /\ cell (SOC coarse_out) 3 5 = Some SOC_new
       /\ cell (P_solar_hist coarse_out) 3 5 = Some solar
       /\ theta coarse_config !! 3%nat = Some th
       /\ time coarse_config !! 3%nat = Some time_t
       /\ SOC_new
          == spec_SOC_update coarse_config SOC_prev solar
               (load_power coarse_config
                  (geometry_of cos_approx radians_approx coarse_config th time_t)
                  SOC_prev)
               (E_batt_eff_of coarse_config time_t).
Proof.
  split; [exact coarse_run|].
  apply (SOC_update_formula cos_approx radians_approx coarse_config coarse_out
           coarse_run); vm_compute; lia.
Defined.

Lemma eclipse_of_cases (th : Q) :
  (120 < th /\ th < 270 /\ eclipse_of th = 0%Z)
  \/ (~ (120 < th /\ th < 270) /\ eclipse_of th = 1%Z).
Proof.
  unfold eclipse_of.
  case_Qltb 120 th; [case_Qltb th 270|]; cbn [andb]; [left|right|right];
    repeat split; try assumption; intros [H1 H2]; lra.
Qed.

Lemma f_theta_of_nonneg (math_cos math_radians : Q -> Q) (th : Q) :
  0 <= f_theta_of math_cos math_radians th.
Proof.
  unfold f_theta_of. eapply Qle_trans; [|apply py_max_r]. lra.
Qed.

Lemma P_max_at_area (cfg : Config) (p : nat) :
  (p < N_p cfg)%nat ->
  exists n, num_panels cfg !! p = Some n
    /\ A_total cfg !! p = Some (inject_Z n * A_panel cfg * packing_eff cfg)
    /\ P_max_at cfg p
       = G_sun cfg * (inject_Z n * A_panel cfg * packing_eff cfg).
Proof.
  intros Hp. destruct (lookup_lt_is_Some_2 (num_panels cfg) p) as [n Hn];
    [exact Hp|].
  exists n. split; [exact Hn|].
  unfold P_max_at, P_max, A_total.
  rewrite !list_lookup_fmap, Hn. split; reflexivity.
Qed.

(** C3.  From the first step on, the stored solar power is the product of
    the solar constant, the total panel area, the three efficiencies, the
    projection factor and the eclipse flag; the flag is 0 exactly when the
    orbital angle lies strictly between 120 and 270 degrees and 1
    otherwise; the power is 0 in that interval, and it is non-negative
    when the product of its static factors is. *)
Theorem solar_power_formula
    (math_cos math_radians : Q -> Q) (cfg : Config) (out : State) :
  simulate math_cos math_radians cfg = Ok out ->
  forall t p, (1 <= t < N_t cfg)%nat -> (p < N_p cfg)%nat ->
  exists th n total_panel_area eclipse_flag solar,
    theta cfg !! t = Some th
    /\ num_panels cfg !! p = Some n
    /\ total_panel_area = inject_Z n * A_panel cfg * packing_eff cfg
    /\ A_total cfg !! p = Some total_panel_area
    /\ eclipse_flag = inject_Z (eclipse_of th)
    /\ (120 < th /\ th < 270 -> eclipse_flag = 0)
    /\ (~ (120 < th /\ th < 270) -> eclipse_flag = 1)
    /\ cell (P_solar_hist out) t p = Some solar
    /\ solar
       == G_sun cfg * total_panel_area * eta_cell cfg * eta_mppt cfg
          * eta_wiring cfg * f_theta_of math_cos math_radians th * eclipse_flag
    /\ (120 < th /\ th < 270 -> solar == 0)
    /\ (0 <= G_sun cfg * total_panel_area * eta_cell cfg * eta_mppt cfg
             * eta_wiring cfg -> 0 <= solar).
Proof.
  intros Hrun t p Ht Hp.
  destruct (P_max_at_area cfg p Hp) as (n & Hn & Ha & Hpm).
  exists (theta_at cfg t), n, (inject_Z n * A_panel cfg * packing_eff cfg),
         (inject_Z (eclipse_of (theta_at cfg t))),
         (solar_power cfg (geom math_cos math_radians cfg t) (P_max_at cfg p)).
  split; [apply theta_lookup; lia|].
  split; [exact Hn|]. split; [reflexivity|]. split; [exact Ha|].
  split; [reflexivity|].
  pose proof (f_theta_of_nonneg math_cos math_radians (theta_at cfg t)) as Hf.
  pose proof (run_solar _ _ _ _ Hrun t p Ht Hp) as Hcell.
  set (solar := solar_power _ _ _) in *.
  assert (Hsolar : solar
            = P_max_at cfg p * eta_cell cfg * eta_mppt cfg * eta_wiring cfg
              * f_theta_of math_cos math_radians (theta_at cfg t)
              * inject_Z (eclipse_of (theta_at cfg t))) by reflexivity.
  rewrite Hpm in Hsolar. clearbody solar.
  set (f := f_theta_of math_cos math_radians (theta_at cfg t)) in *.
  set (c := G_sun cfg * (inject_Z n * A_panel cfg * packing_eff cfg)
            * eta_cell cfg * eta_mppt cfg * eta_wiring cfg).
  fold c in Hsolar.
  destruct (eclipse_of_cases (theta_at cfg t)) as [(H1 & H2 & E)|(H & E)];
    rewrite E in *; subst solar.
  - split; [reflexivity|]. split; [intros H; tauto|].
    split; [exact Hcell|].
    split; [reflexivity|]. split; [intros _; ring|].
    intros _. assert (E0 : c * f * inject_Z 0 == 0) by ring.
    rewrite E0. lra.
  - split; [intros H'; tauto|]. split; [reflexivity|].
    split; [exact Hcell|].
    split; [reflexivity|]. split; [intros H'; tauto|].
    intros Hc. assert (E1 : c * f * inject_Z 1 == c * f) by ring.
    rewrite E1. now apply Qmult_le_0_compat.
Qed.

Lemma solar_power_formula_witness :
  simulate cos_approx radians_approx coarse_config = Ok coarse_out
  /\ exists th n total_panel_area eclipse_flag solar,
    theta coarse_config !! 2%nat = Some th
    /\ num_panels coarse_config !! 3%nat = Some n
    /\ total_panel_area = inject_Z n * (0.1 * 0.1) * 0.5
    /\ A_total coarse_config !! 3%nat = Some total_panel_area
    /\ eclipse_flag = inject_Z (eclipse_of th)
    /\ (120 < th /\ th < 270 -> eclipse_flag = 0)
    /\ (~ (120 < th /\ th < 270) -> eclipse_flag = 1)
    /\ cell (P_solar_hist coarse_out) 2 3 = Some solar
    /\ solar
       == 1361 * total_panel_area * 0.30 * 0.95 * 0.97
          * f_theta_of cos_approx radians_approx th * eclipse_flag
    /\ (120 < th /\ th < 270 -> solar == 0)
    /\ (0 <= 1361 * total_panel_area * 0.30 * 0.95 * 0.97 -> 0 <= solar).
Proof.
  split; [exact coarse_run|].
  apply (solar_power_formula cos_approx radians_approx coarse_config coarse_out
           coarse_run); vm_compute; lia.
Defined.

Lemma TX_on_iff (cfg : Config) (g : Geometry) (SOC_prev : Q) :
  TX_on cfg g SOC_prev = true
  <-> eclipse g = 1%Z
      /\ (0 <= theta_i g /\ theta_i g <= 360 * TX_duration cfg / orbit_period cfg)
      /\ 0.30 * E_batt_eff g + P_TX cfg * TX_duration cfg / 3600
         < SOC_prev * E_batt_eff g - P_load_nominal cfg * TX_duration cfg / 3600.
Proof.
  unfold TX_on, TX_theta_width.
  rewrite !andb_true_iff, Z.eqb_eq, !Qle_bool_iff, Qltb_lt.
  set (w := 360 * TX_duration cfg / orbit_period cfg).
  set (a := P_TX cfg * TX_duration cfg).
  set (b := P_load_nominal cfg * TX_duration cfg).
  set (c := SOC_prev * E_batt_eff g).
  split.
  - intros [[H1 H2] H3]. split; [exact H1|]. split; [exact H2|].
    qconst_inv. lra.
  - intros (H1 & H2 & H3). split; [split; [exact H1|exact H2]|].
    qconst_inv. lra.
Qed.

(** C4.  At every simulated step the transmission power is added on top
    of the baseline load exactly when the eclipse flag is 1, the orbital
    angle lies in [[0, 360 * TX_duration / orbit_period]], and the energy
    available at the previous state of charge, less the nominal load over
    the transmission, strictly exceeds the 30 % reserve plus the energy of
    the transmission; the state of charge of the step is computed with
    that load. *)
Theorem transmission_condition
    (math_cos math_radians : Q -> Q) (cfg : Config) (out : State) :
  simulate math_cos math_radians cfg = Ok out ->
  forall t p, (1 <= t < N_t cfg)%nat -> (p < N_p cfg)%nat ->
  exists th time_t SOC_prev,
    theta cfg !! t = Some th
    /\ time cfg !! t = Some time_t
    /\ cell (SOC out) (t - 1) p = Some SOC_prev
    /\ let g := geometry_of math_cos math_radians cfg th time_t in
       let theta_width := 360 * TX_duration cfg / orbit_period cfg in
       let capacity_eff := E_batt_eff_of cfg time_t in
       let tx_conditions :=
         eclipse_of th = 1%Z
         /\ (0 <= th /\ th <= theta_width)
         /\ 0.30 * capacity_eff + P_TX cfg * TX_duration cfg / 3600
            < SOC_prev * capacity_eff
              - (P_OBC cfg + P_ADCS cfg + P_COMMS cfg + P_PAYLOAD cfg)
                * TX_duration cfg / 3600 in
       (TX_on cfg g SOC_prev = true <-> tx_conditions)
       /\ (tx_conditions ->
           load_power cfg g SOC_prev = base_load cfg SOC_prev + P_TX cfg)
       /\ (~ tx_conditions -> load_power cfg g SOC_prev = base_load cfg SOC_prev)
       /\ cell (SOC out) t p = Some (soc_next cfg g (P_max_at cfg p) SOC_prev).
Proof.
  intros Hrun t p Ht Hp.
  exists (theta_at cfg t), (time_at cfg t),
         (soc_at math_cos math_radians cfg (t - 1) p).
  split; [apply theta_lookup; lia|].
  split; [apply time_lookup; lia|].
  split; [apply (run_SOC _ _ _ _ Hrun); lia|].
  cbv zeta.
  set (g := geometry_of math_cos math_radians cfg (theta_at cfg t) (time_at cfg t)).
  set (x := soc_at math_cos math_radians cfg (t - 1) p).
  pose proof (TX_on_iff cfg g x) as Hiff.
  split; [exact Hiff|].
  split; [|split].
  - intros H. apply Hiff in H. unfold load_power. now rewrite H.
  - intros H. unfold load_power.
    destruct (TX_on cfg g x); [|reflexivity].
    destruct H. now apply Hiff.
  - rewrite (run_SOC _ _ _ _ Hrun) by lia.
    destruct t as [|t]; [lia|]. subst x.
    replace (S t - 1)%nat with t by lia. reflexivity.
Qed.

Lemma transmission_condition_witness :
  simulate cos_approx radians_approx coarse_config = Ok coarse_out
  /\ exists th time_t SOC_prev,
    theta coarse_config !! 3%nat = Some th
    /\ time coarse_config !! 3%nat = Some time_t
    /\ cell (SOC coarse_out) (3 - 1) 5 = Some SOC_prev
    /\ let g := geometry_of cos_approx radians_approx coarse_config th time_t in
       let theta_width := 360 * (15 * 60) / (95 * 60) in
       let capacity_eff := E_batt_eff_of coarse_config time_t in
       let tx_conditions :=
         eclipse_of th = 1%Z
         /\ (0 <= th /\ th <= theta_width)
         /\ 0.30 * capacity_eff + 15.0 * (15 * 60) / 3600
            < SOC_prev * capacity_eff
              - (0.5 + 0.8 + 0.7 + 0.5) * (15 * 60) / 3600 in
       (TX_on coarse_config g SOC_prev = true <-> tx_conditions)
       /\ (tx_conditions ->
           load_power coarse_config g SOC_prev
           = base_load coarse_config SOC_prev + 15.0)
       /\ (~ tx_conditions ->
           load_power coarse_config g SOC_prev = base_load coarse_config SOC_prev)
       /\ cell (SOC coarse_out) 3 5
          = Some (soc_next coarse_config g (P_max_at coarse_config 5) SOC_prev).
Proof.
  split; [exact coarse_run|].
  apply (transmission_condition cos_approx radians_approx coarse_config
           coarse_out coarse_run); vm_compute; lia.
Defined.

(** On the coarse grid the transmission is on at step 3 for six panels and
    off for one panel: the load differs between configurations. *)
Example coarse_TX_step_3 :
  exists g x0 x5,
    geometry cos_approx radians_approx coarse_config 3 = Ok g
    /\ cell (SOC coarse_out) 2 0 = Some x0
    /\ cell (SOC coarse_out) 2 5 = Some x5
    /\ TX_on coarse_config g x0 = false
    /\ TX_on coarse_config g x5 = true
    /\ load_power coarse_config g x0 == 2.5
    /\ load_power coarse_config g x5 == 17.5.
Proof.
  do 3 eexists. repeat split; vm_compute; reflexivity.
Qed.

Lemma energy_delta_compat (cfg : Config) (solar load load' : Q) :
  load == load' ->
  energy_delta cfg solar load == energy_delta cfg solar load'.
Proof.
  intros E. unfold energy_delta.
  assert (E' : (solar - load) * dt cfg / 3600.0
               == (solar - load') * dt cfg / 3600.0) by now rewrite E.
  case_Qltb 0 ((solar - load) * dt cfg / 3600.0);
    case_Qltb 0 ((solar - load') * dt cfg / 3600.0); lra.
Qed.

(** The load of a step is the baseline plus the transmission power, when
    the transmission is on. *)
Lemma load_power_split (cfg : Config) (g : Geometry) (SOC_prev : Q) :
  load_power cfg g SOC_prev
  == base_load cfg SOC_prev + (if TX_on cfg g SOC_prev then P_TX cfg else 0).
Proof.
  unfold load_power. destruct (TX_on cfg g SOC_prev); ring.
Qed.

Lemma base_load_cases (cfg : Config) (SOC_prev : Q) :
  (SOC_prev < 0.30 -> base_load cfg SOC_prev = P_OBC cfg)
  /\ (~ SOC_prev < 0.30 ->
      base_load cfg SOC_prev
      = P_OBC cfg + P_ADCS cfg + P_COMMS cfg + P_PAYLOAD cfg).
Proof.
  unfold base_load. split; intros H.
  - case_Qltb SOC_prev 0.30; [reflexivity|lra].
  - case_Qltb SOC_prev 0.30; [contradiction|reflexivity].
Qed.

(** C5.  At every simulated step and for every configuration the baseline
    load is the OBC power when the state of charge stored for the previous
    step is strictly below 0.30, and the sum of the four subsystem loads
    otherwise (at 0.30 itself and above).  It is the baseline the step
    uses: the state of charge stored for the step is the update computed
    with the baseline plus the transmission power when the transmission is
    on, and for the last configuration that load is the entry of the load
    history.  With the script's constants a previous state of charge of
    0.25 gives 0.5 W and the threshold value 0.30 gives the nominal 2.5 W. *)
Theorem safe_mode_baseline
    (math_cos math_radians : Q -> Q) (cfg : Config) (out : State) :
  simulate math_cos math_radians cfg = Ok out ->
  (forall t p, (1 <= t < N_t cfg)%nat -> (p < N_p cfg)%nat ->
   exists th time_t SOC_prev SOC_new solar baseline,
     theta cfg !! t = Some th
     /\ time cfg !! t = Some time_t
     /\ cell (SOC out) (t - 1) p = Some SOC_prev
     /\ cell (SOC out) t p = Some SOC_new
     /\ cell (P_solar_hist out) t p = Some solar
     /\ base_load cfg SOC_prev = baseline
     /\ (SOC_prev < 0.30 -> baseline = P_OBC cfg)
     /\ (~ SOC_prev < 0.30 ->
         baseline = P_OBC cfg + P_ADCS cfg + P_COMMS cfg + P_PAYLOAD cfg)
     /\ let g := geometry_of math_cos math_radians cfg th time_t in
        let transmission := if TX_on cfg g SOC_prev then P_TX cfg else 0 in
        SOC_new
        == spec_SOC_update cfg SOC_prev solar (baseline + transmission)
             (E_batt_eff_of cfg time_t)
        /\ (S p = N_p cfg ->
            exists load, P_load_hist out !! t = Some load
              /\ load == baseline + transmission))
  /\ base_load source_config 0.25 == 0.5
  /\ base_load source_config 0.30 == 0.5 + 0.8 + 0.7 + 0.5.
Proof.
  intros Hrun. split; [|split; reflexivity].
  intros t p Ht Hp.
  exists (theta_at cfg t), (time_at cfg t),
         (soc_at math_cos math_radians cfg (t - 1) p),
         (soc_at math_cos math_radians cfg t p),
         (solar_power cfg (geom math_cos math_radians cfg t) (P_max_at cfg p)),
         (base_load cfg (soc_at math_cos math_radians cfg (t - 1) p)).
  split; [apply theta_lookup; lia|].
  split; [apply time_lookup; lia|].
  split; [apply (run_SOC _ _ _ _ Hrun); lia|].
  split; [apply (run_SOC _ _ _ _ Hrun); lia|].
  split; [now apply (run_solar _ _ _ _ Hrun)|].
  split; [reflexivity|].
  split; [apply base_load_cases|]. split; [apply base_load_cases|].
  cbv zeta.
  fold (geom math_cos math_radians cfg t).
  set (g := geom math_cos math_radians cfg t).
  set (x := soc_at math_cos math_radians cfg (t - 1) p).
  split.
  - subst x. destruct t as [|t]; [lia|]. cbn [soc_at].
    replace (S t - 1)%nat with t by lia.
    set (x := soc_at math_cos math_radians cfg t p). fold g.
    unfold soc_next, spec_SOC_update.
    apply np_clip_spec_clamp.
    rewrite (energy_delta_compat cfg _ _ _ (load_power_split cfg g x)).
    rewrite energy_delta_spec.
    unfold self_discharge_factor, g, geom, geometry_of. cbn [E_batt_eff].
    qconst_inv. ring.
  - intros Hlast. eexists. split; [apply (run_load _ _ _ _ Hrun); exact Ht|].
    fold g. replace (N_p cfg - 1)%nat with p by lia. fold x.
    apply load_power_split.
Qed.

Lemma safe_mode_baseline_witness :
  simulate cos_approx radians_approx low_charge_config = Ok low_charge_out
  /\ cell (SOC low_charge_out) 0 5 = Some 0.25
  /\ exists th time_t SOC_new solar,
       theta low_charge_config !! 1%nat = Some th
       /\ time low_charge_config !! 1%nat = Some time_t
       /\ cell (SOC low_charge_out) 1 5 = Some SOC_new
       /\ cell (P_solar_hist low_charge_out) 1 5 = Some solar
       /\ base_load low_charge_config 0.25 = 0.5
       /\ let g := geometry_of cos_approx radians_approx low_charge_config
                     th time_t in
          let transmission :=
            if TX_on low_charge_config g 0.25 then 15.0 else 0 in
          SOC_new
          == spec_SOC_update low_charge_config 0.25 solar (0.5 + transmission)
               (E_batt_eff_of low_charge_config time_t)
          /\ exists load, P_load_hist low_charge_out !! 1%nat = Some load
               /\ load == 0.5 + transmission.
Proof.
  assert (Hrun : simulate cos_approx radians_approx low_charge_config
                 = Ok low_charge_out) by (vm_compute; reflexivity).
  assert (H0 : cell (SOC low_charge_out) 0 5 = Some 0.25) by reflexivity.
  split; [exact Hrun|]. split; [exact H0|].
  destruct (proj1 (safe_mode_baseline cos_approx radians_approx
                     low_charge_config low_charge_out Hrun) 1%nat 5%nat)
    as (th & time_t & x & y & solar & b & Hth & Htime & Hx & Hy & Hs & Hb
        & Hlow & _ & Hupd & Hload);
    [vm_compute; lia|vm_compute; lia|].
  change (1 - 1)%nat with 0%nat in Hx. rewrite H0 in Hx.
  injection Hx as <-.
  assert (Eb : b = 0.5) by (apply Hlow; reflexivity).
  rewrite Eb in Hb, Hupd, Hload.
  exists th, time_t, y, solar.
  split; [exact Hth|]. split; [exact Htime|]. split; [exact Hy|].
  split; [exact Hs|]. split; [exact Hb|].
  split; [exact Hupd|]. apply Hload. reflexivity.
Defined.

(** The two runs of the scenario.  Started at 0.25 every configuration is
    in safe mode at step 1 and the load stored for the step is the OBC
    power, 0.5 W; started on the threshold 0.30 the load is the nominal
    2.5 W. *)
Example safe_mode_step :
  simulate cos_approx radians_approx low_charge_config = Ok low_charge_out
  /\ cell (SOC low_charge_out) 0 5 = Some 0.25
  /\ (exists load, P_load_hist low_charge_out !! 1%nat = Some load
        /\ load == 0.5)
  /\ simulate cos_approx radians_approx threshold_config = Ok threshold_out
  /\ cell (SOC threshold_out) 0 5 = Some 0.30
  /\ (exists load, P_load_hist threshold_out !! 1%nat = Some load
        /\ load == 2.5).
Proof.
  split; [vm_compute; reflexivity|]. split; [reflexivity|].
  split; [eexists; split; [reflexivity|reflexivity]|].
  split; [vm_compute; reflexivity|]. split; [reflexivity|].
  eexists; split; reflexivity.
Qed.

(** C7.  The load history has one entry per time index, while the state
    of charge and the solar power have one per time index and
    configuration; from the first step on, the entry of the load history
    is the load computed for the last configuration of the list. *)
Theorem load_history_last_configuration
    (math_cos math_radians : Q -> Q) (cfg : Config) (out : State) :
  simulate math_cos math_radians cfg = Ok out ->
  length (P_load_hist out) = N_t cfg
  /\ length (SOC out) = N_t cfg
  /\ length (P_solar_hist out) = N_t cfg
  /\ (forall t row, SOC out !! t = Some row -> length row = N_p cfg)
  /\ (forall t row, P_solar_hist out !! t = Some row -> length row = N_p cfg)
  /\ forall t, (1 <= t < N_t cfg)%nat ->
     exists th time_t SOC_prev,
       (0 < N_p cfg)%nat
       /\ theta cfg !! t = Some th
       /\ time cfg !! t = Some time_t
       /\ cell (SOC out) (t - 1) (N_p cfg - 1) = Some SOC_prev
       /\ P_load_hist out !! t
          = Some (load_power cfg
                    (geometry_of math_cos math_radians cfg th time_t) SOC_prev).
Proof.
  intros Hrun. destruct (simulate_Ok_Inv _ _ _ _ Hrun) as (I & _).
  split; [apply (inv_load_len _ _ _ _ _ _ I)|].
  split; [apply (inv_SOC_len _ _ _ _ _ _ I)|].
  split; [apply (inv_sol_len _ _ _ _ _ _ I)|].
  split; [apply (inv_SOC_row _ _ _ _ _ _ I)|].
  split; [apply (inv_sol_row _ _ _ _ _ _ I)|].
  intros t Ht. pose proof (run_panels _ _ _ _ Hrun t Ht) as Hp.
  exists (theta_at cfg t), (time_at cfg t),
         (soc_at math_cos math_radians cfg (t - 1) (N_p cfg - 1)).
  split; [exact Hp|].
  split; [apply theta_lookup; lia|].
  split; [apply time_lookup; lia|].
  split; [apply (run_SOC _ _ _ _ Hrun); lia|].
  apply (run_load _ _ _ _ Hrun t Ht).
Qed.

Lemma load_history_last_configuration_witness :
  simulate cos_approx radians_approx coarse_config = Ok coarse_out
  /\ length (P_load_hist coarse_out) = 6%nat
  /\ exists th time_t SOC_prev,
       theta coarse_config !! 3%nat = Some th
       /\ time coarse_config !! 3%nat = Some time_t
       /\ cell (SOC coarse_out) 2 5 = Some SOC_prev
       /\ P_load_hist coarse_out !! 3%nat
          = Some (load_power coarse_config
                    (geometry_of cos_approx radians_approx coarse_config
                       th time_t) SOC_prev).
Proof.
  split; [exact coarse_run|].
  destruct (load_history_last_configuration cos_approx radians_approx
              coarse_config coarse_out coarse_run) as (Hlen & _ & _ & _ & _ & H).
  split; [exact Hlen|].
  destruct (H 3%nat) as (th & time_t & x & _ & H1 & H2 & H3 & H4);
    [vm_compute; lia|].
  exists th, time_t, x. repeat split; assumption.
Defined.

(** On the coarse grid the recorded load of step 3 is the 17.5 W of the
    six-panel configuration, not the 2.5 W drawn with one panel. *)
Example coarse_load_hist_step_3 :
  exists v, P_load_hist coarse_out !! 3%nat = Some v /\ v == 17.5.
Proof. eexists. split; vm_compute; reflexivity. Qed.


Lemma battery_fade_floor (cfg : Config) (y : Q) :
  0.3 * E_battery cfg <= battery_fade cfg y.
Proof. unfold battery_fade. apply py_max_r. Qed.




Lemma E_batt_eff_of_pos (cfg : Config) (time_t : Q) :
  0 < E_battery cfg -> 0 < E_batt_eff_of cfg time_t.
Proof.
  intros HE. unfold E_batt_eff_of.
  pose proof (battery_fade_floor cfg (mission_years_of time_t)). lra.
Qed.

Lemma base_load_nonneg (cfg : Config) (x : Q) :
  0 <= P_OBC cfg -> 0 <= P_load_nominal cfg -> 0 <= base_load cfg x.
Proof. intros H1 H2. unfold base_load. now destruct (Qltb x 0.30). Qed.

(** In eclipse nothing is generated and nothing is transmitted. *)
Lemma eclipse_step (cfg : Config) (g : Geometry) (pm x : Q) :
  eclipse g = 0%Z ->
  solar_power cfg g pm == 0 /\ load_power cfg g x = base_load cfg x.
Proof.
  intros E. unfold solar_power, load_power, TX_on. rewrite E. cbn [Z.eqb andb].
  split; [ring|reflexivity].
Qed.

Lemma energy_delta_discharge (cfg : Config) (solar load : Q) :
  0 <= dt cfg -> solar == 0 -> 0 <= load -> energy_delta cfg solar load <= 0.
Proof.
  intros Hdt Hs Hl. unfold energy_delta.
  assert (H : (solar - load) * dt cfg / 3600.0 <= 0).
  { assert (H' : 0 <= load * dt cfg) by now apply Qmult_le_0_compat.
    assert (E : (solar - load) * dt cfg / 3600.0
                == (solar * dt cfg - load * dt cfg) * / 3600.0)
      by (unfold Qdiv; ring).
    rewrite E, Hs. qconst_inv. lra. }
  case_Qltb 0 ((solar - load) * dt cfg / 3600.0); lra.
Qed.

Lemma shrink_toward_zero (x q k : Q) :
  0 <= x -> q <= 0 -> 0 <= k <= 1 -> (x + q) * k <= x.
Proof.
  intros Hx Hq [Hk0 Hk1].
  destruct (Qlt_le_dec (x + q) 0) as [Hneg|Hpos].
  - assert (H : 0 <= (- (x + q)) * k) by (apply Qmult_le_0_compat; lra).
    assert (E : (x + q) * k == - ((- (x + q)) * k)) by ring.
    rewrite E. lra.
  - assert (H : 0 <= (x + q) * (1 - k)) by (apply Qmult_le_0_compat; lra).
    assert (E : (x + q) * k == (x + q) - (x + q) * (1 - k)) by ring.
    rewrite E. lra.
Qed.

Lemma soc_next_eclipse (cfg : Config) (g : Geometry) (pm x : Q) :
  eclipse g = 0%Z ->
  0 <= SOC_min cfg -> 0 <= P_OBC cfg -> 0 <= P_load_nominal cfg ->
  0 <= dt cfg -> 0 < E_batt_eff g ->
  0 <= self_discharge_factor cfg <= 1 ->
  SOC_min cfg <= x ->
  soc_next cfg g pm x <= x.
Proof.
  intros E Hmin Hobc Hnom Hdt Hcap Hk Hx. unfold soc_next.
  destruct (eclipse_step cfg g pm x E) as [Hs Hl]. rewrite Hl.
  apply np_clip_le; [|exact Hx].
  apply shrink_toward_zero; [lra| |exact Hk].
  pose proof (energy_delta_discharge cfg (solar_power cfg g pm)
                (base_load cfg x) Hdt Hs (base_load_nonneg cfg x Hobc Hnom)) as Hd.
  set (d := energy_delta _ _ _) in *.
  assert (Hi : 0 < / E_batt_eff g) by now apply Qinv_lt_0_compat.
  assert (H : 0 <= (- d) * / E_batt_eff g) by (apply Qmult_le_0_compat; lra).
  assert (E' : d / E_batt_eff g == - ((- d) * / E_batt_eff g))
    by (unfold Qdiv; ring).
  rewrite E'. lra.
Qed.

(** C10.  At a step whose orbital angle lies strictly between 120 and 270
    degrees, a previous state of charge within [[SOC_min, SOC_max]] with
    [SOC_min >= 0] is not exceeded by the new one, for non-negative loads
    and time step, a positive battery capacity and a self-discharge factor
    between 0 and 1. *)
Theorem eclipse_never_charges
    (math_cos math_radians : Q -> Q) (cfg : Config) (out : State) :
  simulate math_cos math_radians cfg = Ok out ->
  0 <= SOC_min cfg ->
  0 <= P_OBC cfg ->
  0 <= P_OBC cfg + P_ADCS cfg + P_COMMS cfg + P_PAYLOAD cfg ->
  0 <= dt cfg ->
  0 < E_battery cfg ->
  0 <= 1 - self_discharge_per_day cfg * dt cfg / 86400 <= 1 ->
  forall t p th SOC_prev SOC_new,
    (1 <= t < N_t cfg)%nat -> (p < N_p cfg)%nat ->
    theta cfg !! t = Some th -> 120 < th /\ th < 270 ->
    cell (SOC out) (t - 1) p = Some SOC_prev ->
    SOC_min cfg <= SOC_prev <= SOC_max cfg ->
    cell (SOC out) t p = Some SOC_new ->
    SOC_new <= SOC_prev.
Proof.
  intros Hrun Hmin Hobc Hnom Hdt HE Hk t p th x y Ht Hp Hth Hecl Hx Hb Hy.
  rewrite theta_lookup in Hth by lia. injection Hth as <-.
  rewrite (run_SOC _ _ _ _ Hrun) in Hx by lia. injection Hx as <-.
  rewrite (run_SOC _ _ _ _ Hrun) in Hy by lia. injection Hy as <-.
  destruct t as [|t]; [lia|].
  replace (S t - 1)%nat with t in * by lia. cbn [soc_at].
  apply soc_next_eclipse; try assumption.
  - unfold geom, geometry_of. cbn [eclipse].
    destruct (eclipse_of_cases (theta_at cfg (S t))) as [(_ & _ & E)|(H & _)];
      [exact E|tauto].
  - unfold geom, geometry_of. cbn [E_batt_eff]. now apply E_batt_eff_of_pos.
  - apply Hb.
Qed.

Lemma coarse_cells_step_2 :
  exists x y,
    cell (SOC coarse_out) (2 - 1) 3 = Some x
    /\ 0.2 <= x <= 0.99
    /\ cell (SOC coarse_out) 2 3 = Some y.
Proof.
  do 2 eexists. split; [reflexivity|]. split; [split; discriminate|reflexivity].
Qed.

Lemma eclipse_never_charges_witness :
  simulate cos_approx radians_approx coarse_config = Ok coarse_out
  /\ 0 <= SOC_min coarse_config
  /\ 0 <= P_OBC coarse_config
  /\ 0 <= 0.5 + 0.8 + 0.7 + 0.5
  /\ 0 <= dt coarse_config
  /\ 0 < E_battery coarse_config
  /\ 0 <= 1 - 0.02 / 30 * 1900.0 / 86400 <= 1
  /\ exists th SOC_prev SOC_new,
       theta coarse_config !! 2%nat = Some th /\ (120 < th /\ th < 270)
       /\ cell (SOC coarse_out) (2 - 1) 3 = Some SOC_prev
       /\ 0.2 <= SOC_prev <= 0.99
       /\ cell (SOC coarse_out) 2 3 = Some SOC_new
       /\ SOC_new <= SOC_prev.
Proof.
  assert (Hmin : 0 <= SOC_min coarse_config) by discriminate.
  assert (Hobc : 0 <= P_OBC coarse_config) by discriminate.
  assert (Hnom : 0 <= 0.5 + 0.8 + 0.7 + 0.5) by discriminate.
  assert (Hdt : 0 <= dt coarse_config) by discriminate.
  assert (HE : 0 < E_battery coarse_config) by reflexivity.
  assert (Hk : 0 <= 1 - 0.02 / 30 * 1900.0 / 86400 <= 1)
    by (split; discriminate).
  assert (Hth : theta coarse_config !! 2%nat = Some (136800000 # 570000))
    by reflexivity.
  assert (Hecl : 120 < 136800000 # 570000 /\ 136800000 # 570000 < 270)
    by (split; reflexivity).
  destruct (coarse_cells_step_2) as (x & y & Hx & Hb & Hy).
  split; [exact coarse_run|]. split; [exact Hmin|]. split; [exact Hobc|].
  split; [exact Hnom|]. split; [exact Hdt|]. split; [exact HE|].
  split; [exact Hk|].
  exists (136800000 # 570000), x, y.
  split; [exact Hth|]. split; [exact Hecl|]. split; [exact Hx|].
  split; [exact Hb|]. split; [exact Hy|].
  apply (eclipse_never_charges cos_approx radians_approx coarse_config
           coarse_out coarse_run Hmin Hobc Hnom Hdt HE Hk
           2%nat 3%nat (136800000 # 570000) x y);
    try assumption; vm_compute; lia.
Defined.

(** ** Outcomes of the script on a configuration *)

Lemma N_t_negative_step (cfg : Config) :
  dt cfg < 0 -> 0 <= t_end cfg -> N_t cfg = 0%nat.
Proof.
  intros Hdt Hend. unfold N_t.
  set (x := t_end cfg / dt cfg).
  assert (Hx : x <= 0).
  { destruct (Qlt_le_dec 0 x) as [Hpos|Hle]; [|exact Hle].
    assert (H : 0 < x * (- dt cfg)) by (apply Qmult_lt_0_compat; lra).
    assert (E : x * dt cfg == t_end cfg)
      by (unfold x; field; lra).
    assert (E' : x * (- dt cfg) == - (x * dt cfg)) by ring.
    rewrite E', E in H. lra. }
  apply Qceiling_resp_le in Hx. change (Qceiling 0) with 0%Z in Hx. lia.
Qed.

Lemma simulate_positive_capacity
    (math_cos math_radians : Q -> Q) (cfg : Config) :
  ~ dt cfg == 0 -> ~ orbit_period cfg == 0 -> (0 < N_t cfg)%nat ->
  ((1 < N_t cfg)%nat -> (0 < N_p cfg)%nat) -> 0 < E_battery cfg ->
  exists out, simulate math_cos math_radians cfg = Ok out.
Proof.
  intros Hdt Hop Ht Hp HE. apply simulate_total; try assumption.
  intros t _. unfold geom, geometry_of. cbn [E_batt_eff].
  pose proof (E_batt_eff_of_pos cfg (time_at cfg t) HE). lra.
Qed.

Lemma simulate_NameError (math_cos math_radians : Q -> Q) (cfg : Config) :
  ~ dt cfg == 0 -> ~ orbit_period cfg == 0 -> (1 < N_t cfg)%nat ->
  N_p cfg = 0%nat ->
  simulate math_cos math_radians cfg = Raise NameError.
Proof.
  intros Hdt Hop Ht Hp. unfold simulate.
  destruct (Qeq_bool (dt cfg) 0) eqn:E1;
    [apply Qeq_bool_iff in E1; contradiction|].
  destruct (Qeq_bool (orbit_period cfg) 0) eqn:E2;
    [apply Qeq_bool_iff in E2; contradiction|].
  destruct (initial_state_Inv math_cos math_radians cfg) as (s0 & Hs0 & I0);
    [lia|].
  rewrite Hs0. cbn [bind].
  replace (N_t cfg - 1)%nat with (S (N_t cfg - 2)) by lia.
  apply main_loop_NameError; [lia|exact I0|exact Hp].
Qed.

(** C6, as the script behaves.  Nothing is validated.  A zero time step
    or orbit period raises [ZeroDivisionError] and an empty time grid (a
    negative time step) raises [IndexError], all before the first step; an
    empty list of panel counts raises [NameError] in the first step; every
    other configuration with a positive battery capacity is simulated to
    the end, whatever its state-of-charge bounds and efficiencies. *)
Theorem configuration_outcomes
    (math_cos math_radians : Q -> Q) (cfg : Config) :
  (dt cfg == 0 -> simulate math_cos math_radians cfg = Raise ZeroDivisionError)
  /\ (orbit_period cfg == 0 ->
      simulate math_cos math_radians cfg = Raise ZeroDivisionError)
  /\ (~ dt cfg == 0 -> ~ orbit_period cfg == 0 -> N_t cfg = 0%nat ->
      simulate math_cos math_radians cfg = Raise IndexError)
  /\ (dt cfg < 0 -> 0 <= t_end cfg -> N_t cfg = 0%nat)
  /\ (~ dt cfg == 0 -> ~ orbit_period cfg == 0 -> (1 < N_t cfg)%nat ->
      num_panels cfg = [] ->
      simulate math_cos math_radians cfg = Raise NameError)
  /\ (~ dt cfg == 0 -> ~ orbit_period cfg == 0 -> (0 < N_t cfg)%nat ->
      ((1 < N_t cfg)%nat -> num_panels cfg <> []) -> 0 < E_battery cfg ->
      exists out, simulate math_cos math_radians cfg = Ok out).
Proof.
  repeat split.
  - intros H. unfold simulate. apply Qeq_bool_iff in H. now rewrite H.
  - intros H. unfold simulate. apply Qeq_bool_iff in H. rewrite H.
    now destruct (Qeq_bool (dt cfg) 0).
  - intros Hdt Hop Ht. unfold simulate.
    destruct (Qeq_bool (dt cfg) 0) eqn:E1;
      [apply Qeq_bool_iff in E1; contradiction|].
    destruct (Qeq_bool (orbit_period cfg) 0) eqn:E2;
      [apply Qeq_bool_iff in E2; contradiction|].
    now rewrite initial_state_IndexError.
  - apply N_t_negative_step.
  - intros Hdt Hop Ht Hp. apply simulate_NameError; try assumption.
    unfold N_p. now rewrite Hp.
  - intros Hdt Hop Ht Hp HE. apply simulate_positive_capacity; try assumption.
    intros H. specialize (Hp H). unfold N_p.
    destruct (num_panels cfg); [contradiction|cbn; lia].
Qed.

Lemma N_t_invalid_config : N_t invalid_config = Z.to_nat 5700.
Proof. vm_compute. reflexivity. Qed.

Lemma configuration_outcomes_witness :
  SOC_max invalid_config <= SOC_min invalid_config
  /\ eta_cell invalid_config < 0
  /\ exists out, simulate cos_approx radians_approx invalid_config = Ok out.
Proof.
  split; [vm_compute; discriminate|]. split; [vm_compute; reflexivity|].
  apply (configuration_outcomes cos_approx radians_approx invalid_config).
  - vm_compute. discriminate.
  - vm_compute. discriminate.
  - rewrite N_t_invalid_config. lia.
  - intros _. vm_compute. discriminate.
  - vm_compute. reflexivity.
Defined.

(** C6 as stated fails: the configuration with exchanged bounds and a
    negative efficiency is not rejected; the run ends without an exception
    and its first step has stored a state of charge. *)
Lemma invalid_config_is_simulated :
  SOC_max invalid_config <= SOC_min invalid_config
  /\ eta_cell invalid_config < 0
  /\ exists out v,
       simulate cos_approx radians_approx invalid_config = Ok out
       /\ cell (SOC out) 1 0 = Some v
       /\ v == 0.2.
Proof.
  split; [vm_compute; discriminate|]. split; [vm_compute; reflexivity|].
  destruct (simulate_positive_capacity cos_approx radians_approx invalid_config)
    as [out Hout].
  - vm_compute. discriminate.
  - vm_compute. discriminate.
  - rewrite N_t_invalid_config. lia.
  - intros _. vm_compute. lia.
  - vm_compute. reflexivity.
  - exists out, (soc_at cos_approx radians_approx invalid_config 1 0).
    split; [exact Hout|].
    split; [apply (run_SOC _ _ _ _ Hout)|].
    + rewrite N_t_invalid_config. lia.
    + vm_compute. lia.
    + vm_compute. reflexivity.
Qed.

(** ** The scenario at orbital angle zero *)

Lemma N_t_source_config : N_t source_config = Z.to_nat 5700.
Proof. vm_compute. reflexivity. Qed.

Lemma source_config_runs (math_cos math_radians : Q -> Q) :
  exists out, simulate math_cos math_radians source_config = Ok out.
Proof.
  apply simulate_positive_capacity.
  - vm_compute. discriminate.
  - vm_compute. discriminate.
  - rewrite N_t_source_config. lia.
  - intros _. vm_compute. lia.
  - vm_compute. reflexivity.
Qed.

(** The value of the real cosine at -45 degrees, and what it gives for a
    rational-valued cosine that is accurate to one part in a million
    there: the bounds under which the scenario is stated below. *)
Lemma sqrt2_bounds : (1.414213 < sqrt 2 < 1.414214)%R.
Proof.
  assert (H2 : (0 <= 2)%R) by lra.
  pose proof (sqrt_sqrt 2 H2) as Hs.
  pose proof (sqrt_pos 2) as Hp.
  split; nra.
Qed.

Lemma cos_minus_45_degrees :
  (0.7071065 < cos (-45 * PI / 180) < 0.707107)%R.
Proof.
  replace (-45 * PI / 180)%R with (- (PI / 4))%R by lra.
  rewrite cos_neg, cos_PI4.
  pose proof sqrt2_bounds as [H1 H2].
  assert (H2' : (0 <= 2)%R) by lra.
  pose proof (sqrt_sqrt 2 H2') as Hs.
  assert (E : (1 / sqrt 2 = sqrt 2 / 2)%R) by (field_simplify_eq; lra).
  rewrite E. lra.
Qed.

Lemma accurate_cos_minus_45 (math_cos math_radians : Q -> Q) :
  (forall x,
     Rabs (Q2R (math_cos (math_radians x)) - cos (Q2R x * PI / 180))
     <= 1 / 1000000)%R ->
  forall x, x == -45 -> 0.70710 <= math_cos (math_radians x) <= 0.70711.
Proof.
  intros Hacc x Hx. specialize (Hacc x).
  assert (E : Q2R x = (-45)%R).
  { rewrite (Qeq_eqR _ _ Hx). unfold Q2R. cbn [Qnum Qden]. lra. }
  rewrite E in Hacc.
  pose proof cos_minus_45_degrees as [H1 H2].
  set (c := math_cos (math_radians x)) in *.
  unfold Rabs in Hacc. destruct (Rcase_abs _) in Hacc.
  all: split; apply Rle_Qle;
    [replace (Q2R 0.70710) with 0.70710%R by (unfold Q2R; cbn [Qnum Qden]; lra)
    |replace (Q2R 0.70711) with 0.70711%R by (unfold Q2R; cbn [Qnum Qden]; lra)];
    lra.
Qed.

(** The projection factor at an angle equal to zero, from the value of the
    cosine at -45 degrees. *)
Lemma f_theta_at_zero (math_cos math_radians : Q -> Q) (th : Q) :
  (forall x, x == -45 -> 0.70710 <= math_cos (math_radians x) <= 0.70711) ->
  th == 0 ->
  0.88284 <= f_theta_of math_cos math_radians th <= 0.882844.
Proof.
  intros Hcos Hth. unfold f_theta_of, py_max.
  assert (Hx : th - 45 == -45) by (rewrite Hth; reflexivity).
  specialize (Hcos _ Hx).
  set (c := math_cos (math_radians (th - 45))) in *.
  case_Qltb (0.6 + 0.4 * c) 0.0; lra.
Qed.

Lemma solar_power_at_zero (math_cos math_radians : Q -> Q) (th time_t : Q) :
  (forall x, x == -45 -> 0.70710 <= math_cos (math_radians x) <= 0.70711) ->
  th == 0 ->
  6.64 <= solar_power source_config
            (geometry_of math_cos math_radians source_config th time_t)
            (P_max_at source_config 3) <= 6.65.
Proof.
  intros Hcos Hth.
  pose proof (f_theta_at_zero math_cos math_radians th Hcos Hth) as Hf.
  unfold solar_power, geometry_of. cbn [f_theta eclipse].
  set (f := f_theta_of math_cos math_radians th) in *.
  assert (He : eclipse_of th = 1%Z).
  { destruct (eclipse_of_cases th) as [(H & _)|(_ & E)]; [lra|exact E]. }
  rewrite He.
  assert (Hc : P_max_at source_config 3 * eta_cell source_config
               * eta_mppt source_config * eta_wiring source_config
               == 7.524969) by (vm_compute; reflexivity).
  assert (E : P_max_at source_config 3 * eta_cell source_config
              * eta_mppt source_config * eta_wiring source_config * f
              * inject_Z 1 == 7.524969 * f) by (rewrite Hc; ring).
  rewrite E. lra.
Qed.

(** C9, as the script behaves.  With the script's constants (time step
    100 s, orbit period 5700 s) the orbital angle at index 0 is 0, the
    eclipse flag there is 1 and the projection factor is about 0.8828; the
    4-panel configuration has total area 0.02 m^2 and raw power 27.22 W,
    and the solar power formula at angle 0 gives about 6.64 W.  The run
    stores 0 at index 0, because the loop starts at index 1; the formula
    value is stored at index 57, the first simulated step at angle 0. *)
Theorem scenario_angle_zero (math_cos math_radians : Q -> Q) :
  (forall x, x == -45 -> 0.70710 <= math_cos (math_radians x) <= 0.70711) ->
  dt source_config == 100
  /\ orbit_period source_config == 5700
  /\ (exists th0,
        theta source_config !! 0%nat = Some th0
        /\ th0 == 0
        /\ eclipse_of th0 = 1%Z
        /\ 0.8828 <= f_theta_of math_cos math_radians th0 <= 0.8829)
  /\ (exists area P_max_p,
        A_total source_config !! 3%nat = Some area
        /\ area == 4 * 0.01 * 0.5 /\ area == 0.02
        /\ P_max source_config !! 3%nat = Some P_max_p
        /\ P_max_p == 27.22
        /\ forall th time_t, th == 0 ->
           6.64 <= solar_power source_config
                     (geometry_of math_cos math_radians source_config th time_t)
                     P_max_p <= 6.65)
  /\ (exists out, simulate math_cos math_radians source_config = Ok out)
  /\ (forall out, simulate math_cos math_radians source_config = Ok out ->
      cell (P_solar_hist out) 0 3 = Some 0
      /\ exists th57 solar57,
           theta source_config !! 57%nat = Some th57
           /\ th57 == 0
           /\ cell (P_solar_hist out) 57 3 = Some solar57
           /\ 6.64 <= solar57 <= 6.65).
Proof.
  intros Hcos.
  assert (H0 : (0 < N_t source_config)%nat)
    by (rewrite N_t_source_config; lia).
  assert (H57 : (1 <= 57 < N_t source_config)%nat)
    by (rewrite N_t_source_config; lia).
  assert (Hp : (3 < N_p source_config)%nat) by (vm_compute; lia).
  assert (Hth0 : theta_at source_config 0 == 0) by (vm_compute; reflexivity).
  assert (Hth57 : theta_at source_config 57 == 0) by (vm_compute; reflexivity).
  split; [vm_compute; reflexivity|]. split; [vm_compute; reflexivity|].
  split; [|split; [|split]].
  - exists (theta_at source_config 0).
    split; [now apply theta_lookup|]. split; [exact Hth0|].
    split; [vm_compute; reflexivity|].
    pose proof (f_theta_at_zero math_cos math_radians _ Hcos Hth0). lra.
  - exists (inject_Z 4 * A_panel source_config * packing_eff source_config),
           (P_max_at source_config 3).
    split; [reflexivity|].
    split; [vm_compute; reflexivity|]. split; [vm_compute; reflexivity|].
    split; [now apply P_max_lookup|]. split; [vm_compute; reflexivity|].
    intros th time_t Hth. now apply solar_power_at_zero.
  - apply source_config_runs.
  - intros out Hout.
    split; [now apply (run_solar_first _ _ _ _ Hout)|].
    exists (theta_at source_config 57),
           (solar_power source_config
              (geom math_cos math_radians source_config 57)
              (P_max_at source_config 3)).
    split; [apply theta_lookup; lia|]. split; [exact Hth57|].
    split; [now apply (run_solar _ _ _ _ Hout)|].
    now apply solar_power_at_zero.
Qed.

Lemma cos_approx_minus_45 (x : Q) :
  x == -45 -> 0.70710 <= cos_approx (radians_approx x) <= 0.70711.
Proof.
  intros Hx. unfold radians_approx.
  rewrite (Qred_complete _ _ Hx). vm_compute. split; discriminate.
Qed.

Lemma scenario_angle_zero_witness :
  (forall x, x == -45 -> 0.70710 <= cos_approx (radians_approx x) <= 0.70711)
  /\ exists th0,
       theta source_config !! 0%nat = Some th0
       /\ th0 == 0
       /\ eclipse_of th0 = 1%Z
       /\ 0.8828 <= f_theta_of cos_approx radians_approx th0 <= 0.8829.
Proof.
  split; [exact cos_approx_minus_45|].
  exact (proj1 (proj2 (proj2
           (scenario_angle_zero cos_approx radians_approx cos_approx_minus_45)))).
Defined.

(** C9 as stated fails: the solar power the run stores at index 0 for the
    4-panel configuration is 0, and the formula at angle 0 gives more than
    6.64 W. *)
Lemma stored_solar_power_at_index_zero :
  (exists out,
     simulate cos_approx radians_approx source_config = Ok out
     /\ cell (P_solar_hist out) 0 3 = Some 0)
  /\ 6.64 < solar_power source_config
              (geom cos_approx radians_approx source_config 0)
              (P_max_at source_config 3).
Proof.
  split.
  - destruct (source_config_runs cos_approx radians_approx) as [out Hout].
    exists out. split; [exact Hout|].
    apply (run_solar_first _ _ _ _ Hout). vm_compute. lia.
  - vm_compute. reflexivity.
Qed.

(** * Further properties of the script *)

(** ** The time grid and the orbital angle (lines 12 and 61) *)









Lemma N_t_bounds (cfg : Config) :
  0 < dt cfg -> 0 < t_end cfg ->
  (0 < N_t cfg)%nat
  /\ Q_of_nat (N_t cfg) * dt cfg < t_end cfg + dt cfg
  /\ t_end cfg <= Q_of_nat (N_t cfg) * dt cfg.
Proof.
  intros Hdt Hend. unfold N_t, Q_of_nat.
  set (q := t_end cfg / dt cfg).
  assert (Hq : q * dt cfg == t_end cfg) by (unfold q; field; intros H; lra).
  assert (Hpos : 0 < q) by (apply Qlt_shift_div_l; lra).
  pose proof (Qle_ceiling q) as Hup. pose proof (Qceiling_lt q) as Hlo.
  assert (Hc : (0 < Qceiling q)%Z).
  { rewrite Zlt_Qlt. change (inject_Z 0) with 0. lra. }
  unfold Z.sub in Hlo. rewrite inject_Z_plus, inject_Z_opp in Hlo.
  change (inject_Z 1) with 1 in Hlo.
  rewrite Z2Nat.id by lia.
  set (c := inject_Z (Qceiling q)) in *.
  split; [lia|]. rewrite <- Hq. split.
  - assert (H : 0 < (q + 1 - c) * dt cfg) by (apply Qmult_lt_0_compat; lra).
    assert (E : (q + 1 - c) * dt cfg == q * dt cfg + dt cfg - c * dt cfg)
      by ring.
    rewrite E in H. lra.
  - assert (H : 0 <= (c - q) * dt cfg) by (apply Qmult_le_0_compat; lra).
    assert (E : (c - q) * dt cfg == c * dt cfg - q * dt cfg) by ring.
    rewrite E in H. lra.
Qed.

(** The ceiling of a quotient of integers is the integer ceiling
    division. *)
Lemma Qceiling_int_div (e d : Z) :
  (0 < d)%Z -> Qceiling (inject_Z e / inject_Z d) = ((e + d - 1) / d)%Z.
Proof.
  intros Hd. destruct d as [|q|q]; try lia.
  unfold Qceiling.
  assert (E : - (inject_Z e / inject_Z (Z.pos q)) == (- e) # q).
  { unfold Qeq, Qdiv, Qinv, Qmult, Qopp, inject_Z. cbn [Qnum Qden]. lia. }
  rewrite (Qfloor_comp _ _ E). cbn [Qfloor].
  pose proof (Z.div_mod (- e) (Z.pos q) ltac:(lia)) as Hdm.
  pose proof (Z.mod_pos_bound (- e) (Z.pos q) ltac:(lia)) as Hr.
  apply (Z.div_unique _ _ _ (Z.pos q - 1 - (- e) mod Z.pos q)); lia.
Qed.

(** X3.  For an integer-valued time step, number of orbits and orbit
    period, with the time step and the mission length positive and below
    2^53 (integers that binary64 holds, divides up to the ceiling and
    multiplies without rounding), the time grid has as many entries as the
    integer ceiling division of the mission length by the time step; it is
    not empty, starts at 0, holds the multiples of [dt] strictly below
    [t_end] in increasing order, and its last entry is within [dt] of
    [t_end]. *)
Theorem time_grid (cfg : Config) (d n P : Z) :
  dt cfg == inject_Z d ->
  num_orbits cfg == inject_Z n ->
  orbit_period cfg == inject_Z P ->
  (0 < d < 2 ^ 53)%Z -> (0 < n * P < 2 ^ 53)%Z ->
  N_t cfg = Z.to_nat ((n * P + d - 1) / d)
  /\ length (time cfg) = N_t cfg
  /\ (0 < N_t cfg)%nat
  /\ (exists x0, time cfg !! 0%nat = Some x0 /\ x0 == 0)
  /\ (forall t x, time cfg !! t = Some x ->
        x == inject_Z (Z.of_nat t * d)
        /\ (0 <= Z.of_nat t * d < n * P)%Z
        /\ 0 <= x /\ x < t_end cfg)
  /\ (forall t x y, time cfg !! t = Some x -> time cfg !! S t = Some y ->
        y == x + dt cfg)
  /\ (exists last, time cfg !! (N_t cfg - 1)%nat = Some last
        /\ t_end cfg <= last + dt cfg).
Proof.
  intros Ed En EP Hd He.
  assert (Eend : t_end cfg == inject_Z (n * P))
    by (unfold t_end; now rewrite En, EP, inject_Z_mult).
  assert (Hdt : 0 < dt cfg).
  { rewrite Ed. change 0 with (inject_Z 0). rewrite <- Zlt_Qlt. lia. }
  assert (Hend : 0 < t_end cfg).
  { rewrite Eend. change 0 with (inject_Z 0). rewrite <- Zlt_Qlt. lia. }
  destruct (N_t_bounds cfg Hdt Hend) as (Hn & Hlt & Hge).
  assert (Hlen : length (time cfg) = N_t cfg)
    by (unfold time; now rewrite length_fmap, length_seq).
  assert (Hstep : forall t, time_at cfg (S t) == time_at cfg t + dt cfg).
  { intros t. unfold time_at, Q_of_nat. rewrite Nat2Z.inj_succ.
    unfold Z.succ. rewrite inject_Z_plus. change (inject_Z 1) with 1. ring. }
  assert (Hint : forall t, time_at cfg t == inject_Z (Z.of_nat t * d)).
  { intros t. unfold time_at, Q_of_nat. now rewrite Ed, inject_Z_mult. }
  assert (Hbelow : forall t, (t < N_t cfg)%nat -> time_at cfg t < t_end cfg).
  { intros t Ht. unfold time_at, Q_of_nat in *.
    assert (H1 : inject_Z (Z.of_nat t) + 1 <= inject_Z (Z.of_nat (N_t cfg))).
    { change 1 with (inject_Z 1). rewrite <- inject_Z_plus, <- Zle_Qle. lia. }
    assert (H : 0 <= (inject_Z (Z.of_nat (N_t cfg))
                      - (inject_Z (Z.of_nat t) + 1)) * dt cfg)
      by (apply Qmult_le_0_compat; lra).
    set (m := inject_Z (Z.of_nat (N_t cfg))) in *.
    set (i := inject_Z (Z.of_nat t)) in *.
    assert (E : (m - (i + 1)) * dt cfg == m * dt cfg - i * dt cfg - dt cfg)
      by ring.
    rewrite E in H. lra. }
  split.
  { unfold N_t. f_equal. rewrite <- Qceiling_int_div by lia.
    apply Qceiling_comp. now rewrite Eend, Ed. }
  split; [exact Hlen|]. split; [exact Hn|]. split; [|split; [|split]].
  - exists (time_at cfg 0). split; [now apply time_lookup|].
    unfold time_at, Q_of_nat. cbn. ring.
  - intros t x Hx.
    assert (Ht : (t < N_t cfg)%nat)
      by (apply lookup_lt_Some in Hx; now rewrite Hlen in Hx).
    rewrite time_lookup in Hx by exact Ht. injection Hx as <-.
    pose proof (Hbelow t Ht) as Hb.
    split; [apply Hint|]. split.
    + split; [lia|]. rewrite Zlt_Qlt, <- Hint, <- Eend. exact Hb.
    + split; [|exact Hb]. rewrite Hint.
      change 0 with (inject_Z 0). rewrite <- Zle_Qle. lia.
  - intros t x y Hx Hy.
    assert (Ht : (S t < N_t cfg)%nat)
      by (apply lookup_lt_Some in Hy; now rewrite Hlen in Hy).
    rewrite time_lookup in Hx by lia. injection Hx as <-.
    rewrite time_lookup in Hy by lia. injection Hy as <-.
    apply Hstep.
  - exists (time_at cfg (N_t cfg - 1)). split; [apply time_lookup; lia|].
    rewrite <- Hstep. now replace (S (N_t cfg - 1)) with (N_t cfg) by lia.
Qed.

Lemma time_grid_witness :
  dt source_config == inject_Z 100
  /\ num_orbits source_config == inject_Z 100
  /\ orbit_period source_config == inject_Z 5700
  /\ (0 < 100 < 2 ^ 53)%Z /\ (0 < 100 * 5700 < 2 ^ 53)%Z
  /\ N_t source_config = Z.to_nat ((100 * 5700 + 100 - 1) / 100)
  /\ length (time source_config) = N_t source_config
  /\ exists last, time source_config !! (N_t source_config - 1)%nat = Some last
       /\ t_end source_config <= last + dt source_config.
Proof.
  assert (Ed : dt source_config == inject_Z 100) by reflexivity.
  assert (En : num_orbits source_config == inject_Z 100) by reflexivity.
  assert (EP : orbit_period source_config == inject_Z 5700) by reflexivity.
  assert (Hd : (0 < 100 < 2 ^ 53)%Z) by (split; reflexivity).
  assert (He : (0 < 100 * 5700 < 2 ^ 53)%Z) by (split; reflexivity).
  split; [exact Ed|]. split; [exact En|]. split; [exact EP|].
  split; [exact Hd|]. split; [exact He|].
  pose proof (time_grid source_config 100 100 5700 Ed En EP Hd He)
    as (HN & Hlen & _ & _ & _ & _ & Hlast).
  split; [exact HN|]. split; [exact Hlen|exact Hlast].
Defined.

(** ** One step: projection, transmission, energy (lines 81-141) *)

(** X4.  For a cosine between -1 and 1 the projection factor lies between
    0.2 and 1, and the floor at 0 of line 88 never changes it. *)
Theorem projection_factor_bounds
    (math_cos math_radians : Q -> Q) (th : Q) :
  -1 <= math_cos (math_radians (th - 45)) <= 1 ->
  f_theta_of math_cos math_radians th
  = 0.6 + 0.4 * math_cos (math_radians (th - 45))
  /\ 0.2 <= f_theta_of math_cos math_radians th <= 1.
Proof.
  intros Hc. unfold f_theta_of, py_max.
  set (c := math_cos (math_radians (th - 45))) in *.
  case_Qltb (0.6 + 0.4 * c) 0.0; [lra|].
  split; [reflexivity|lra].
Qed.

Lemma projection_factor_bounds_witness :
  -1 <= cos_approx (radians_approx (200 - 45)) <= 1
  /\ 0.2 <= f_theta_of cos_approx radians_approx 200 <= 1.
Proof.
  assert (Hc : -1 <= cos_approx (radians_approx (200 - 45)) <= 1)
    by (vm_compute; split; discriminate).
  split; [exact Hc|].
  exact (proj2 (projection_factor_bounds cos_approx radians_approx 200 Hc)).
Defined.

(** X5.  A transmission never takes place in safe mode: when [TX_on] holds
    for a positive effective capacity and non-negative transmission and
    nominal-load energies, the previous state of charge is above 0.30, the
    baseline is the nominal load, and the load is the nominal load plus
    [P_TX]. *)
Theorem transmission_excludes_safe_mode
    (cfg : Config) (g : Geometry) (SOC_prev : Q) :
  0 < E_batt_eff g ->
  0 <= P_TX cfg * TX_duration cfg ->
  0 <= P_load_nominal cfg * TX_duration cfg ->
  TX_on cfg g SOC_prev = true ->
  0.30 < SOC_prev
  /\ base_load cfg SOC_prev = P_load_nominal cfg
  /\ load_power cfg g SOC_prev = P_load_nominal cfg + P_TX cfg.
Proof.
  intros HE Ha Hb Htx.
  pose proof (proj1 (TX_on_iff cfg g SOC_prev) Htx) as (_ & _ & H).
  assert (Hx : 0.30 < SOC_prev).
  { destruct (Qlt_le_dec 0.30 SOC_prev) as [Hlt|Hle]; [exact Hlt|].
    assert (Hm : 0 <= (0.30 - SOC_prev) * E_batt_eff g)
      by (apply Qmult_le_0_compat; lra).
    assert (E : (0.30 - SOC_prev) * E_batt_eff g
                == 0.30 * E_batt_eff g - SOC_prev * E_batt_eff g) by ring.
    rewrite E in Hm. revert H.
    set (a := P_TX cfg * TX_duration cfg) in *.
    set (b := P_load_nominal cfg * TX_duration cfg) in *.
    qconst_inv. intros H. lra. }
  split; [exact Hx|].
  assert (Hbase : base_load cfg SOC_prev = P_load_nominal cfg).
  { unfold base_load. case_Qltb SOC_prev 0.30; [lra|reflexivity]. }
  split; [exact Hbase|]. unfold load_power. now rewrite Htx, Hbase.
Qed.

Lemma transmission_excludes_safe_mode_witness :
  exists g x,
    geometry cos_approx radians_approx coarse_config 3 = Ok g
    /\ cell (SOC coarse_out) 2 5 = Some x
    /\ 0 < E_batt_eff g
    /\ TX_on coarse_config g x = true
    /\ 0.30 < x
    /\ load_power coarse_config g x = P_load_nominal coarse_config + 15.0.
Proof.
  do 2 eexists.
  split; [vm_compute; reflexivity|]. split; [vm_compute; reflexivity|].
  match goal with
  | |- 0 < E_batt_eff ?g /\ TX_on _ _ ?x = true /\ _ =>
      assert (HE : 0 < E_batt_eff g) by (vm_compute; reflexivity);
      assert (Htx : TX_on coarse_config g x = true) by (vm_compute; reflexivity);
      pose proof (transmission_excludes_safe_mode coarse_config g x HE
                    ltac:(vm_compute; discriminate)
                    ltac:(vm_compute; discriminate) Htx) as (Hx & _ & Hl)
  end.
  split; [exact HE|]. split; [exact Htx|]. split; [exact Hx|exact Hl].
Defined.

(** X6.  When the transmission window ends at or before 120 degrees, the
    eclipse test of [TX_on] never decides: the transmission is on exactly
    when the angle is in the window and the energy condition holds. *)
Theorem eclipse_test_redundant
    (math_cos math_radians : Q -> Q) (cfg : Config) (th time_t SOC_prev : Q) :
  TX_theta_width cfg <= 120 ->
  let g := geometry_of math_cos math_radians cfg th time_t in
  TX_on cfg g SOC_prev = true
  <-> (0 <= th /\ th <= 360 * TX_duration cfg / orbit_period cfg)
      /\ 0.30 * E_batt_eff g + P_TX cfg * TX_duration cfg / 3600
         < SOC_prev * E_batt_eff g - P_load_nominal cfg * TX_duration cfg / 3600.
Proof.
  intros Hw g. rewrite TX_on_iff. subst g. cbn [geometry_of eclipse theta_i].
  split; [tauto|]. intros [Hwin He]. split; [|tauto].
  destruct (eclipse_of_cases th) as [(H1 & _)|(_ & E)]; [|exact E].
  unfold TX_theta_width in Hw. lra.
Qed.

Lemma eclipse_test_redundant_witness :
  TX_theta_width source_config <= 120
  /\ (TX_on source_config
        (geometry_of cos_approx radians_approx source_config 30 0) 0.9 = true
      <-> (0 <= 30 /\ 30 <= 360 * (15 * 60) / (95 * 60))
          /\ 0.30 * E_batt_eff_of source_config 0 + 15.0 * (15 * 60) / 3600
             < 0.9 * E_batt_eff_of source_config 0
               - P_load_nominal source_config * (15 * 60) / 3600).
Proof.
  assert (Hw : TX_theta_width source_config <= 120) by discriminate.
  split; [exact Hw|].
  exact (eclipse_test_redundant cos_approx radians_approx source_config
           30 0 0.9 Hw).
Defined.

Lemma np_clip_mono (x y lo hi : Q) :
  x <= y -> np_clip x lo hi <= np_clip y lo hi.
Proof.
  intros H. unfold np_clip, np_minimum, np_maximum.
  case_Qltb x lo; case_Qltb y lo;
    repeat match goal with
           | |- context [Qltb ?a ?b] => case_Qltb a b
           end; lra.
Qed.

Lemma energy_delta_mono (cfg : Config) (s1 s2 load : Q) :
  0 <= dt cfg -> s1 <= s2 ->
  energy_delta cfg s1 load <= energy_delta cfg s2 load.
Proof.
  intros Hdt Hs. unfold energy_delta.
  assert (H : 0 <= (s2 - s1) * dt cfg) by (apply Qmult_le_0_compat; lra).
  assert (E : (s2 - s1) * dt cfg
              == (s2 - load) * dt cfg - (s1 - load) * dt cfg) by ring.
  rewrite E in H.
  set (e1 := (s1 - load) * dt cfg) in *. set (e2 := (s2 - load) * dt cfg) in *.
  case_Qltb 0 (e1 / 3600.0); case_Qltb 0 (e2 / 3600.0); qconst_inv; lra.
Qed.

Lemma solar_power_mono
    (math_cos math_radians : Q -> Q) (cfg : Config) (th time_t pm pm' : Q) :
  0 <= eta_cell cfg -> 0 <= eta_mppt cfg -> 0 <= eta_wiring cfg ->
  pm <= pm' ->
  solar_power cfg (geometry_of math_cos math_radians cfg th time_t) pm
  <= solar_power cfg (geometry_of math_cos math_radians cfg th time_t) pm'.
Proof.
  intros Hc Hm Hw Hpm. unfold solar_power. cbn [geometry_of f_theta eclipse].
  pose proof (f_theta_of_nonneg math_cos math_radians th) as Hf.
  set (f := f_theta_of math_cos math_radians th) in *.
  assert (He : 0 <= inject_Z (eclipse_of th)).
  { destruct (eclipse_of_cases th) as [(_ & _ & ->)|(_ & ->)]; discriminate. }
  set (e := inject_Z (eclipse_of th)) in *.
  assert (H : 0 <= (pm' - pm) * eta_cell cfg * eta_mppt cfg * eta_wiring cfg
                   * f * e)
    by (repeat apply Qmult_le_0_compat; lra).
  assert (E : (pm' - pm) * eta_cell cfg * eta_mppt cfg * eta_wiring cfg * f * e
              == pm' * eta_cell cfg * eta_mppt cfg * eta_wiring cfg * f * e
                 - pm * eta_cell cfg * eta_mppt cfg * eta_wiring cfg * f * e)
    by ring.
  rewrite E in H. lra.
Qed.

(** X7.  From the same previous state of charge, a larger raw panel power
    never gives a smaller new state of charge, for non-negative
    efficiencies and time step, a positive battery capacity and a
    non-negative self-discharge factor. *)
Theorem more_panel_power_never_hurts_one_step
    (math_cos math_radians : Q -> Q) (cfg : Config)
    (th time_t P_max_p P_max_q SOC_prev : Q) :
  0 <= eta_cell cfg -> 0 <= eta_mppt cfg -> 0 <= eta_wiring cfg ->
  0 <= dt cfg -> 0 < E_battery cfg -> 0 <= self_discharge_factor cfg ->
  P_max_p <= P_max_q ->
  soc_next cfg (geometry_of math_cos math_radians cfg th time_t) P_max_p SOC_prev
  <= soc_next cfg (geometry_of math_cos math_radians cfg th time_t)
       P_max_q SOC_prev.
Proof.
  intros Hc Hm Hw Hdt HE Hk Hpm. unfold soc_next.
  set (g := geometry_of math_cos math_radians cfg th time_t).
  apply np_clip_mono.
  pose proof (energy_delta_mono cfg _ _ (load_power cfg g SOC_prev) Hdt
                (solar_power_mono math_cos math_radians cfg th time_t _ _
                   Hc Hm Hw Hpm)) as Hd.
  fold g in Hd.
  set (d1 := energy_delta cfg (solar_power cfg g P_max_p) _) in *.
  set (d2 := energy_delta cfg (solar_power cfg g P_max_q) _) in *.
  assert (Hcap : 0 < E_batt_eff g)
    by (subst g; cbn [geometry_of E_batt_eff]; now apply E_batt_eff_of_pos).
  assert (Hi : 0 < / E_batt_eff g) by now apply Qinv_lt_0_compat.
  assert (H : 0 <= (d2 - d1) * / E_batt_eff g * self_discharge_factor cfg)
    by (repeat apply Qmult_le_0_compat; lra).
  assert (E : (d2 - d1) * / E_batt_eff g * self_discharge_factor cfg
              == (SOC_prev + d2 / E_batt_eff g) * self_discharge_factor cfg
                 - (SOC_prev + d1 / E_batt_eff g) * self_discharge_factor cfg)
    by (unfold Qdiv; ring).
  rewrite E in H. lra.
Qed.

Lemma more_panel_power_never_hurts_one_step_witness :
  0 <= eta_cell source_config /\ 0 <= eta_mppt source_config
  /\ 0 <= eta_wiring source_config /\ 0 <= dt source_config
  /\ 0 < E_battery source_config
  /\ 0 <= self_discharge_factor source_config
  /\ P_max_at source_config 0 <= P_max_at source_config 5
  /\ soc_next source_config
       (geometry_of cos_approx radians_approx source_config 30 0)
       (P_max_at source_config 0) 0.6
     <= soc_next source_config
          (geometry_of cos_approx radians_approx source_config 30 0)
          (P_max_at source_config 5) 0.6.
Proof.
  assert (H1 : 0 <= eta_cell source_config) by discriminate.
  assert (H2 : 0 <= eta_mppt source_config) by discriminate.
  assert (H3 : 0 <= eta_wiring source_config) by discriminate.
  assert (H4 : 0 <= dt source_config) by discriminate.
  assert (H5 : 0 < E_battery source_config) by reflexivity.
  assert (H6 : 0 <= self_discharge_factor source_config) by discriminate.
  assert (H7 : P_max_at source_config 0 <= P_max_at source_config 5)
    by discriminate.
  repeat (split; [assumption|]).
  exact (more_panel_power_never_hurts_one_step cos_approx radians_approx
           source_config 30 0 _ _ 0.6 H1 H2 H3 H4 H5 H6 H7).
Defined.

(** Over several steps the order can reverse: on the coarse grid the
    six-panel configuration transmits at step 3 and ends that step below
    the five-panel configuration. *)
Example more_panels_lower_SOC :
  exists v5 v6,
    cell (SOC coarse_out) 3 4 = Some v5
    /\ cell (SOC coarse_out) 3 5 = Some v6
    /\ v6 < v5.
Proof. do 2 eexists. repeat split; vm_compute; reflexivity. Qed.

(** ** The run as a whole (lines 66-145) *)

(** Unfolds one step down to the fields of the configuration. *)
Ltac unfold_step :=
  unfold soc_next, solar_power, load_power, base_load, TX_on, energy_delta,
    self_discharge_factor, P_load_nominal, TX_theta_width, geom, geometry_of,
    f_theta_of, E_batt_eff_of, battery_fade, mission_years_of, theta_at,
    time_at, eclipse_of, N_t, t_end, N_p;
  cbn [with_num_panels with_num_orbits dt orbit_period num_orbits G_sun
       A_panel packing_eff num_panels eta_cell eta_mppt eta_wiring P_OBC
       P_ADCS P_COMMS P_PAYLOAD P_TX TX_duration E_battery SOC_min SOC_max
       SOC_init fade_rate self_discharge_per_day].

Lemma geom_with_num_panels
    (math_cos math_radians : Q -> Q) (cfg : Config) (l : list Z) (t : nat) :
  geom math_cos math_radians (with_num_panels l cfg) t
  = geom math_cos math_radians cfg t.
Proof. unfold_step. reflexivity. Qed.

Lemma soc_next_with_num_panels
    (cfg : Config) (l : list Z) (g : Geometry) (pm x : Q) :
  soc_next (with_num_panels l cfg) g pm x = soc_next cfg g pm x.
Proof. unfold_step. reflexivity. Qed.

Lemma solar_power_with_num_panels
    (cfg : Config) (l : list Z) (g : Geometry) (pm : Q) :
  solar_power (with_num_panels l cfg) g pm = solar_power cfg g pm.
Proof. unfold_step. reflexivity. Qed.

Lemma N_t_with_num_panels (cfg : Config) (l : list Z) :
  N_t (with_num_panels l cfg) = N_t cfg.
Proof. unfold_step. reflexivity. Qed.

Lemma P_max_at_with_num_panels
    (cfg : Config) (l : list Z) (p : nat) (n : Z) :
  l !! p = Some n ->
  P_max_at (with_num_panels l cfg) p
  = G_sun cfg * (inject_Z n * A_panel cfg * packing_eff cfg).
Proof.
  intros H. unfold P_max_at, P_max, A_total.
  cbn [with_num_panels num_panels G_sun A_panel packing_eff].
  now rewrite !list_lookup_fmap, H.
Qed.

Lemma geom_with_num_orbits
    (math_cos math_radians : Q -> Q) (cfg : Config) (n : Q) (t : nat) :
  geom math_cos math_radians (with_num_orbits n cfg) t
  = geom math_cos math_radians cfg t.
Proof. unfold_step. reflexivity. Qed.

Lemma soc_next_with_num_orbits
    (cfg : Config) (n : Q) (g : Geometry) (pm x : Q) :
  soc_next (with_num_orbits n cfg) g pm x = soc_next cfg g pm x.
Proof. unfold_step. reflexivity. Qed.

Lemma solar_power_with_num_orbits
    (cfg : Config) (n : Q) (g : Geometry) (pm : Q) :
  solar_power (with_num_orbits n cfg) g pm = solar_power cfg g pm.
Proof. unfold_step. reflexivity. Qed.

Lemma load_power_with_num_orbits
    (cfg : Config) (n : Q) (g : Geometry) (x : Q) :
  load_power (with_num_orbits n cfg) g x = load_power cfg g x.
Proof. unfold_step. reflexivity. Qed.

Lemma P_max_at_with_num_orbits (cfg : Config) (n : Q) (p : nat) :
  P_max_at (with_num_orbits n cfg) p = P_max_at cfg p.
Proof.
  unfold P_max_at, P_max, A_total.
  cbn [with_num_orbits num_panels G_sun A_panel packing_eff]. reflexivity.
Qed.

Lemma N_p_with_num_orbits (cfg : Config) (n : Q) :
  N_p (with_num_orbits n cfg) = N_p cfg.
Proof. unfold N_p. cbn [with_num_orbits num_panels]. reflexivity. Qed.

(** X8.  Index 0 is never simulated: a finished run holds [SOC_init] in
    every column of row 0 of [SOC], and 0 in row 0 of the solar-power
    history and in entry 0 of the load history. *)
Theorem first_row_is_initial
    (math_cos math_radians : Q -> Q) (cfg : Config) (out : State) :
  simulate math_cos math_radians cfg = Ok out ->
  P_load_hist out !! 0%nat = Some 0
  /\ forall p, (p < N_p cfg)%nat ->
       cell (SOC out) 0 p = Some (SOC_init cfg)
       /\ cell (P_solar_hist out) 0 p = Some 0.
Proof.
  intros Hrun. destruct (simulate_Ok_Inv _ _ _ _ Hrun) as (I & Ht & _).
  split.
  - now rewrite (inv_load _ _ _ _ _ _ I) by exact Ht.
  - intros p Hp. split.
    + now rewrite (run_SOC _ _ _ _ Hrun) by assumption.
    + now apply (run_solar_first _ _ _ _ Hrun).
Qed.

Lemma first_row_is_initial_witness :
  simulate cos_approx radians_approx coarse_config = Ok coarse_out
  /\ P_load_hist coarse_out !! 0%nat = Some 0
  /\ cell (SOC coarse_out) 0 2 = Some 0.6
  /\ cell (P_solar_hist coarse_out) 0 2 = Some 0.
Proof.
  split; [exact coarse_run|].
  destruct (first_row_is_initial cos_approx radians_approx coarse_config
              coarse_out coarse_run) as (Hl & Hp).
  split; [exact Hl|]. apply (Hp 2%nat). vm_compute. lia.
Defined.

Lemma soc_at_with_num_panels
    (math_cos math_radians : Q -> Q) (cfg : Config) (l1 l2 : list Z)
    (p q : nat) (n : Z) (t : nat) :
  l1 !! p = Some n -> l2 !! q = Some n ->
  soc_at math_cos math_radians (with_num_panels l1 cfg) t p
  = soc_at math_cos math_radians (with_num_panels l2 cfg) t q.
Proof.
  intros H1 H2. induction t as [|t IH]; [reflexivity|].
  cbn [soc_at]. rewrite IH.
  rewrite !soc_next_with_num_panels, !geom_with_num_panels.
  now rewrite (P_max_at_with_num_panels _ _ _ _ H1),
              (P_max_at_with_num_panels _ _ _ _ H2).
Qed.

(** X9.  Configurations do not influence each other: the columns of [SOC]
    and of the solar-power history for a panel count are the same whatever
    the other entries of [num_panels] are and wherever the count stands in
    the list. *)
Theorem configurations_are_independent
    (math_cos math_radians : Q -> Q) (cfg : Config) (l1 l2 : list Z)
    (out1 out2 : State) (p q : nat) (n : Z) :
  simulate math_cos math_radians (with_num_panels l1 cfg) = Ok out1 ->
  simulate math_cos math_radians (with_num_panels l2 cfg) = Ok out2 ->
  l1 !! p = Some n -> l2 !! q = Some n ->
  forall t, (t < N_t cfg)%nat ->
    cell (SOC out1) t p = cell (SOC out2) t q
    /\ cell (P_solar_hist out1) t p = cell (P_solar_hist out2) t q.
Proof.
  intros Hr1 Hr2 H1 H2 t Ht.
  assert (Hp : (p < N_p (with_num_panels l1 cfg))%nat)
    by (apply lookup_lt_Some in H1; exact H1).
  assert (Hq : (q < N_p (with_num_panels l2 cfg))%nat)
    by (apply lookup_lt_Some in H2; exact H2).
  assert (Ht1 : (t < N_t (with_num_panels l1 cfg))%nat)
    by now rewrite N_t_with_num_panels.
  assert (Ht2 : (t < N_t (with_num_panels l2 cfg))%nat)
    by now rewrite N_t_with_num_panels.
  split.
  - rewrite (run_SOC _ _ _ _ Hr1) by assumption.
    rewrite (run_SOC _ _ _ _ Hr2) by assumption.
    f_equal. now apply soc_at_with_num_panels with (n := n).
  - destruct t as [|t].
    + rewrite (run_solar_first _ _ _ _ Hr1) by assumption.
      now rewrite (run_solar_first _ _ _ _ Hr2) by assumption.
    + rewrite (run_solar _ _ _ _ Hr1) by (assumption || lia).
      rewrite (run_solar _ _ _ _ Hr2) by (assumption || lia).
      rewrite !solar_power_with_num_panels, !geom_with_num_panels.
      now rewrite (P_max_at_with_num_panels _ _ _ _ H1),
                  (P_max_at_with_num_panels _ _ _ _ H2).
Qed.

Lemma coarse_reordered_run :
  simulate cos_approx radians_approx coarse_reordered = Ok coarse_reordered_out.
Proof. vm_compute. reflexivity. Qed.

Lemma configurations_are_independent_witness :
  simulate cos_approx radians_approx
    (with_num_panels [1; 2; 3; 4; 5; 6]%Z coarse_config) = Ok coarse_out
  /\ simulate cos_approx radians_approx
       (with_num_panels [6; 4; 1]%Z coarse_config) = Ok coarse_reordered_out
  /\ cell (SOC coarse_out) 4 3 = cell (SOC coarse_reordered_out) 4 1
  /\ cell (P_solar_hist coarse_out) 4 3
     = cell (P_solar_hist coarse_reordered_out) 4 1.
Proof.
  assert (H1 : simulate cos_approx radians_approx
                 (with_num_panels [1; 2; 3; 4; 5; 6]%Z coarse_config)
               = Ok coarse_out) by (vm_compute; reflexivity).
  assert (H2 : simulate cos_approx radians_approx
                 (with_num_panels [6; 4; 1]%Z coarse_config)
               = Ok coarse_reordered_out) by (vm_compute; reflexivity).
  split; [exact H1|]. split; [exact H2|].
  apply (configurations_are_independent cos_approx radians_approx coarse_config
           _ _ _ _ 3%nat 1%nat 4%Z H1 H2); [reflexivity|reflexivity|].
  vm_compute. lia.
Defined.

Lemma soc_at_with_num_orbits
    (math_cos math_radians : Q -> Q) (cfg : Config) (n : Q) (t p : nat) :
  soc_at math_cos math_radians (with_num_orbits n cfg) t p
  = soc_at math_cos math_radians cfg t p.
Proof.
  induction t as [|t IH]; [reflexivity|]. cbn [soc_at].
  now rewrite IH, soc_next_with_num_orbits, geom_with_num_orbits,
              P_max_at_with_num_orbits.
Qed.

(** X10.  The time series only grow: two runs that differ in the number of
    orbits agree on [SOC], on the solar-power history and on the load
    history at every time index they share. *)
Theorem longer_mission_same_prefix
    (math_cos math_radians : Q -> Q) (cfg : Config) (n1 n2 : Q)
    (out1 out2 : State) :
  simulate math_cos math_radians (with_num_orbits n1 cfg) = Ok out1 ->
  simulate math_cos math_radians (with_num_orbits n2 cfg) = Ok out2 ->
  forall t, (t < N_t (with_num_orbits n1 cfg))%nat ->
            (t < N_t (with_num_orbits n2 cfg))%nat ->
    P_load_hist out1 !! t = P_load_hist out2 !! t
    /\ forall p, (p < N_p cfg)%nat ->
         cell (SOC out1) t p = cell (SOC out2) t p
         /\ cell (P_solar_hist out1) t p = cell (P_solar_hist out2) t p.
Proof.
  intros Hr1 Hr2 t Ht1 Ht2.
  destruct (simulate_Ok_Inv _ _ _ _ Hr1) as (I1 & _).
  destruct (simulate_Ok_Inv _ _ _ _ Hr2) as (I2 & _).
  split.
  - destruct t as [|t].
    + rewrite (inv_load _ _ _ _ _ _ I1), (inv_load _ _ _ _ _ _ I2)
        by assumption. reflexivity.
    + rewrite (run_load _ _ _ _ Hr1), (run_load _ _ _ _ Hr2) by lia.
      now rewrite !load_power_with_num_orbits, !geom_with_num_orbits,
                  !soc_at_with_num_orbits, !N_p_with_num_orbits.
  - intros p Hp.
    assert (Hp1 : (p < N_p (with_num_orbits n1 cfg))%nat)
      by now rewrite N_p_with_num_orbits.
    assert (Hp2 : (p < N_p (with_num_orbits n2 cfg))%nat)
      by now rewrite N_p_with_num_orbits.
    split.
    + rewrite (run_SOC _ _ _ _ Hr1), (run_SOC _ _ _ _ Hr2) by assumption.
      now rewrite !soc_at_with_num_orbits.
    + destruct t as [|t].
      * rewrite (run_solar_first _ _ _ _ Hr1), (run_solar_first _ _ _ _ Hr2)
          by assumption. reflexivity.
      * rewrite (run_solar _ _ _ _ Hr1), (run_solar _ _ _ _ Hr2)
          by (assumption || lia).
        now rewrite !solar_power_with_num_orbits, !geom_with_num_orbits,
                    !P_max_at_with_num_orbits.
Qed.

Lemma coarse_one_orbit_run :
  simulate cos_approx radians_approx coarse_one_orbit = Ok coarse_one_orbit_out.
Proof. vm_compute. reflexivity. Qed.

Lemma longer_mission_same_prefix_witness :
  simulate cos_approx radians_approx (with_num_orbits 1 coarse_config)
  = Ok coarse_one_orbit_out
  /\ simulate cos_approx radians_approx (with_num_orbits 2 coarse_config)
     = Ok coarse_out
  /\ P_load_hist coarse_one_orbit_out !! 2%nat = P_load_hist coarse_out !! 2%nat
  /\ cell (SOC coarse_one_orbit_out) 2 5 = cell (SOC coarse_out) 2 5.
Proof.
  assert (H1 : simulate cos_approx radians_approx
                 (with_num_orbits 1 coarse_config) = Ok coarse_one_orbit_out)
    by (vm_compute; reflexivity).
  assert (H2 : simulate cos_approx radians_approx
                 (with_num_orbits 2 coarse_config) = Ok coarse_out)
    by (vm_compute; reflexivity).
  split; [exact H1|]. split; [exact H2|].
  destruct (longer_mission_same_prefix cos_approx radians_approx coarse_config
              1 2 _ _ H1 H2 2%nat) as (Hl & Hc);
    [vm_compute; lia|vm_compute; lia|].
  split; [exact Hl|]. apply (Hc 5%nat). vm_compute. lia.
Defined.




(** ** After the loop: reductions over a column (lines 176-209) *)

Lemma elem_here (x : Q) (l : list Q) : x ∈ x :: l.
Proof. apply elem_of_cons. now left. Qed.

Lemma elem_further (x y : Q) (l : list Q) : x ∈ l -> x ∈ y :: l.
Proof. intros H. apply elem_of_cons. now right. Qed.

Lemma fold_np_minimum (l : list Q) (x : Q) :
  let r := fold_left np_minimum l x in
  r <= x /\ (forall v, v ∈ l -> r <= v) /\ (r = x \/ r ∈ l).
Proof.
  revert x. induction l as [|y l IH]; intros x; cbn [fold_left].
  - split; [lra|]. split; [|now left]. intros v Hv. inversion Hv.
  - destruct (IH (np_minimum x y)) as (H1 & H2 & H3).
    assert (Hm : np_minimum x y <= x /\ np_minimum x y <= y
                 /\ (np_minimum x y = x \/ np_minimum x y = y)).
    { unfold np_minimum. case_Qltb y x; repeat split; lra || auto. }
    destruct Hm as (Hx & Hy & Hc).
    split; [lra|]. split.
    + intros v Hv. apply elem_of_cons in Hv as [->|Hv]; [lra|now apply H2].
    + destruct H3 as [H3|H3]; [|right; now apply elem_further].
      destruct Hc as [Hc|Hc]; [left; congruence|].
      right. rewrite H3, Hc. apply elem_here.
Qed.

Lemma fold_np_maximum (l : list Q) (x : Q) :
  let r := fold_left np_maximum l x in
  x <= r /\ (forall v, v ∈ l -> v <= r) /\ (r = x \/ r ∈ l).
Proof.
  revert x. induction l as [|y l IH]; intros x; cbn [fold_left].
  - split; [lra|]. split; [|now left]. intros v Hv. inversion Hv.
  - destruct (IH (np_maximum x y)) as (H1 & H2 & H3).
    assert (Hm : x <= np_maximum x y /\ y <= np_maximum x y
                 /\ (np_maximum x y = x \/ np_maximum x y = y)).
    { unfold np_maximum. case_Qltb x y; repeat split; lra || auto. }
    destruct Hm as (Hx & Hy & Hc).
    split; [lra|]. split.
    + intros v Hv. apply elem_of_cons in Hv as [->|Hv]; [lra|now apply H2].
    + destruct H3 as [H3|H3]; [|right; now apply elem_further].
      destruct Hc as [Hc|Hc]; [left; congruence|].
      right. rewrite H3, Hc. apply elem_here.
Qed.

Lemma np_min_spec (l : list Q) (m : Q) :
  np_min l = Some m -> m ∈ l /\ forall v, v ∈ l -> m <= v.
Proof.
  destruct l as [|x l]; [discriminate|]. cbn [np_min]. intros [= <-].
  destruct (fold_np_minimum l x) as (H1 & H2 & H3). split.
  - destruct H3 as [->|H3]; [apply elem_here|].
    now apply elem_further.
  - intros v Hv. apply elem_of_cons in Hv as [->|Hv]; [exact H1|now apply H2].
Qed.

Lemma np_max_spec (l : list Q) (m : Q) :
  np_max l = Some m -> m ∈ l /\ forall v, v ∈ l -> v <= m.
Proof.
  destruct l as [|x l]; [discriminate|]. cbn [np_max]. intros [= <-].
  destruct (fold_np_maximum l x) as (H1 & H2 & H3). split.
  - destruct H3 as [->|H3]; [apply elem_here|].
    now apply elem_further.
  - intros v Hv. apply elem_of_cons in Hv as [->|Hv]; [exact H1|now apply H2].
Qed.




Lemma np_mean_empty : np_mean [] = Raise NotFinite.
Proof. reflexivity. Qed.

(** Reading a column row by row. *)
Lemma getcol_rows_Ok (a : list (list Q)) (p : nat) (f : nat -> Q) :
  (forall t, (t < length a)%nat -> cell a t p = Some (f t)) ->
  getcol_rows a p = Ok (f <$> seq 0 (length a)).
Proof.
  revert f. induction a as [|row a IH]; intros f H; [reflexivity|].
  cbn [getcol_rows length seq fmap list_fmap].
  pose proof (H 0%nat ltac:(cbn; lia)) as H0. unfold cell in H0. cbn in H0.
  rewrite (getitem_Some _ _ _ H0). cbn [bind].
  rewrite (IH (fun t => f (S t))).
  - cbn [bind]. rewrite <- fmap_S_seq, <- list_fmap_compose. reflexivity.
  - intros t Ht. apply (H (S t)). cbn. lia.
Qed.

Lemma getcol_rows_drop (a : list (list Q)) (p j : nat) (col : list Q) :
  getcol_rows a p = Ok col -> getcol_rows (drop j a) p = Ok (drop j col).
Proof.
  revert a col. induction j as [|j IH]; intros a col H.
  - now rewrite !drop_0.
  - destruct a as [|row a]; cbn [getcol_rows] in H.
    + injection H as <-. reflexivity.
    + destruct (getitem row p) as [v|]; [|discriminate]. cbn [bind] in H.
      destruct (getcol_rows a p) as [rest|] eqn:E; [|discriminate].
      cbn [bind] in H. injection H as <-. cbn [drop]. now apply IH.
Qed.

Section Columns.

Variable math_cos : Q -> Q.
Variable math_radians : Q -> Q.
Variable cfg : Config.
Variable out : State.
Hypothesis Hrun : simulate math_cos math_radians cfg = Ok out.

Lemma SOC_column (p : nat) :
  (p < N_p cfg)%nat ->
  getcol (N_p cfg) (SOC out) p
  = Ok ((fun t => soc_at math_cos math_radians cfg t p) <$> seq 0 (N_t cfg)).
Proof.
  intros Hp. unfold getcol. rewrite decide_True by exact Hp.
  destruct (simulate_Ok_Inv _ _ _ _ Hrun) as (I & _).
  rewrite <- (inv_SOC_len _ _ _ _ _ _ I).
  apply getcol_rows_Ok. intros t Ht.
  rewrite (inv_SOC_len _ _ _ _ _ _ I) in Ht.
  now apply (run_SOC _ _ _ _ Hrun).
Qed.

Lemma P_solar_column (p : nat) :
  (p < N_p cfg)%nat ->
  getcol (N_p cfg) (P_solar_hist out) p
  = Ok ((fun t => if (1 <=? t)%nat
                  then solar_power cfg (geom math_cos math_radians cfg t)
                         (P_max_at cfg p)
                  else 0) <$> seq 0 (N_t cfg)).
Proof.
  intros Hp. unfold getcol. rewrite decide_True by exact Hp.
  destruct (simulate_Ok_Inv _ _ _ _ Hrun) as (I & _).
  rewrite <- (inv_sol_len _ _ _ _ _ _ I).
  apply getcol_rows_Ok. intros t Ht.
  rewrite (inv_sol_len _ _ _ _ _ _ I) in Ht.
  destruct t as [|t].
  - now apply (run_solar_first _ _ _ _ Hrun).
  - apply (run_solar _ _ _ _ Hrun); [lia|exact Hp].
Qed.

Lemma N_t_pos : (0 < N_t cfg)%nat.
Proof. now destruct (simulate_Ok_Inv _ _ _ _ Hrun) as (_ & H & _). Qed.

End Columns.

Lemma elem_of_column (f : nat -> Q) (n : nat) (v : Q) :
  v ∈ f <$> seq 0 n <-> exists t, (t < n)%nat /\ v = f t.
Proof.
  rewrite list_elem_of_fmap. split.
  - intros (t & -> & Ht). apply elem_of_seq in Ht. exists t. split; [lia|reflexivity].
  - intros (t & Ht & ->). exists t. split; [reflexivity|].
    apply elem_of_seq. lia.
Qed.

Lemma np_min_nonempty (l : list Q) : l <> [] -> exists m, np_min l = Some m.
Proof. destruct l; [contradiction|]. intros _. eexists. reflexivity. Qed.

Lemma np_max_nonempty (l : list Q) : l <> [] -> exists m, np_max l = Some m.
Proof. destruct l; [contradiction|]. intros _. eexists. reflexivity. Qed.

Lemma column_nonempty (f : nat -> Q) (n : nat) :
  (0 < n)%nat -> f <$> seq 0 n <> [].
Proof. destruct n; [lia|]. intros _. discriminate. Qed.

Lemma cell_in_range (a : list (list Q)) (t p : nat) (v : Q) :
  cell a t p = Some v -> (t < length a)%nat.
Proof.
  unfold cell. destruct (a !! t) eqn:E; [|discriminate].
  intros _. eapply lookup_lt_Some, E.
Qed.

Lemma soc_at_bounds
    (math_cos math_radians : Q -> Q) (cfg : Config) (t p : nat) :
  SOC_min cfg <= SOC_init cfg <= SOC_max cfg ->
  SOC_min cfg <= soc_at math_cos math_radians cfg t p <= SOC_max cfg.
Proof.
  intros H. destruct t as [|t]; cbn [soc_at]; [exact H|].
  apply soc_next_bounds. lra.
Qed.

(** The minimum of a column of [SOC]: a stored value, below every other. *)
Lemma SOC_column_min
    (math_cos math_radians : Q -> Q) (cfg : Config) (out : State) (p : nat) :
  simulate math_cos math_radians cfg = Ok out -> (p < N_p cfg)%nat ->
  exists col min_soc,
    getcol (N_p cfg) (SOC out) p = Ok col
    /\ length col = N_t cfg
    /\ np_min col = Some min_soc
    /\ (exists t, cell (SOC out) t p = Some min_soc)
    /\ (forall t v, cell (SOC out) t p = Some v -> min_soc <= v)
    /\ (forall v, v ∈ col <-> exists t, cell (SOC out) t p = Some v).
Proof.
  intros Hrun Hp.
  pose proof (N_t_pos _ _ _ _ Hrun) as Hn.
  destruct (simulate_Ok_Inv _ _ _ _ Hrun) as (I & _).
  set (f := fun t => soc_at math_cos math_radians cfg t p).
  assert (Hin : forall v, v ∈ f <$> seq 0 (N_t cfg)
                          <-> exists t, cell (SOC out) t p = Some v).
  { intros v. rewrite elem_of_column. split.
    - intros (t & Ht & ->). exists t. now apply (run_SOC _ _ _ _ Hrun).
    - intros (t & Hv). pose proof (cell_in_range _ _ _ _ Hv) as Ht.
      rewrite (inv_SOC_len _ _ _ _ _ _ I) in Ht.
      rewrite (run_SOC _ _ _ _ Hrun) in Hv by assumption.
      injection Hv as <-. exists t. split; [exact Ht|reflexivity]. }
  destruct (np_min_nonempty (f <$> seq 0 (N_t cfg))) as [m Hm];
    [now apply column_nonempty|].
  destruct (np_min_spec _ _ Hm) as [Hmem Hle].
  exists (f <$> seq 0 (N_t cfg)), m.
  split; [now apply SOC_column|].
  split; [now rewrite length_fmap, length_seq|].
  split; [exact Hm|]. split; [now apply Hin|]. split; [|exact Hin].
  intros t v Hv. apply Hle, Hin. now exists t.
Qed.



(** X13.  The verdict of line 194: a configuration is reported viable
    exactly when every stored state of charge of its column is above 0.25;
    an initial state of charge of at most 0.25 is never viable, and with
    [SOC_min] above 0.25 and [SOC_init] within the bounds every
    configuration is. *)
Theorem viability_verdict
    (math_cos math_radians : Q -> Q) (cfg : Config) (out : State) (p : nat) :
  simulate math_cos math_radians cfg = Ok out ->
  (p < N_p cfg)%nat ->
  exists col min_soc,
    getcol (N_p cfg) (SOC out) p = Ok col
    /\ np_min col = Some min_soc
    /\ (mission_viable min_soc = true
        <-> forall t v, cell (SOC out) t p = Some v -> 0.25 < v)
    /\ (SOC_init cfg <= 0.25 -> mission_viable min_soc = false)
    /\ (0.25 < SOC_min cfg -> SOC_min cfg <= SOC_init cfg <= SOC_max cfg ->
        mission_viable min_soc = true).
Proof.
  intros Hrun Hp.
  destruct (simulate_Ok_Inv _ _ _ _ Hrun) as (I & Hn & _).
  destruct (SOC_column_min _ _ _ _ _ Hrun Hp)
    as (col & m & Hcol & Hlen & Hm & (t0 & Ht0) & Hle & Hin).
  exists col, m. split; [exact Hcol|]. split; [exact Hm|].
  unfold mission_viable. split; [|split].
  - rewrite Qltb_lt. split.
    + intros H t v Hv. pose proof (Hle t v Hv). lra.
    + intros H. now apply (H t0).
  - intros H. apply Qltb_ge.
    pose proof (Hle 0%nat _ (run_SOC _ _ _ _ Hrun 0%nat p Hn Hp)). cbn in *. lra.
  - intros H Hinit. apply Qltb_lt.
    pose proof (cell_in_range _ _ _ _ Ht0) as Ht.
    rewrite (inv_SOC_len _ _ _ _ _ _ I) in Ht.
    rewrite (run_SOC _ _ _ _ Hrun) in Ht0 by assumption. injection Ht0 as <-.
    pose proof (soc_at_bounds math_cos math_radians cfg t0 p Hinit). lra.
Qed.

Lemma viability_verdict_witness :
  simulate cos_approx radians_approx coarse_config = Ok coarse_out
  /\ exists col min_soc,
       getcol 6 (SOC coarse_out) 0 = Ok col
       /\ np_min col = Some min_soc
       /\ (mission_viable min_soc = true
           <-> forall t v, cell (SOC coarse_out) t 0 = Some v -> 0.25 < v).
Proof.
  split; [exact coarse_run|].
  destruct (viability_verdict cos_approx radians_approx coarse_config
              coarse_out 0 coarse_run) as (col & m & H1 & H2 & H3 & _);
    [vm_compute; lia|].
  exists col, m. split; [exact H1|]. split; [exact H2|exact H3].
Defined.

(** On the coarse grid the one-panel configuration is viable: its lowest
    stored state of charge is above 0.25. *)
Example coarse_one_panel_viable :
  exists col min_soc,
    getcol 6 (SOC coarse_out) 0 = Ok col
    /\ np_min col = Some min_soc
    /\ mission_viable min_soc = true.
Proof. do 2 eexists. repeat split; vm_compute; reflexivity. Qed.

Lemma f_theta_of_le_1 (math_cos math_radians : Q -> Q) (th : Q) :
  math_cos (math_radians (th - 45)) <= 1 ->
  f_theta_of math_cos math_radians th <= 1.
Proof.
  intros H. unfold f_theta_of. apply py_max_lub; [|discriminate]. lra.
Qed.

Lemma solar_power_bounds
    (math_cos math_radians : Q -> Q) (cfg : Config) (th time_t pm : Q) :
  math_cos (math_radians (th - 45)) <= 1 ->
  0 <= pm * eta_cell cfg * eta_mppt cfg * eta_wiring cfg ->
  0 <= solar_power cfg (geometry_of math_cos math_radians cfg th time_t) pm
    <= pm * eta_cell cfg * eta_mppt cfg * eta_wiring cfg.
Proof.
  intros Hcos Hc. unfold solar_power. cbn [geometry_of f_theta eclipse].
  pose proof (f_theta_of_nonneg math_cos math_radians th) as Hf0.
  pose proof (f_theta_of_le_1 math_cos math_radians th Hcos) as Hf1.
  set (f := f_theta_of math_cos math_radians th) in *.
  set (c := pm * eta_cell cfg * eta_mppt cfg * eta_wiring cfg) in *.
  assert (H1 : 0 <= c * f) by now apply Qmult_le_0_compat.
  assert (H2 : 0 <= c * (1 - f)) by (apply Qmult_le_0_compat; lra).
  assert (E2 : c * (1 - f) == c - c * f) by ring. rewrite E2 in H2.
  destruct (eclipse_of_cases th) as [(_ & _ & ->)|(_ & ->)].
  - assert (E : c * f * inject_Z 0 == 0) by ring. rewrite E. lra.
  - assert (E : c * f * inject_Z 1 == c * f) by ring. rewrite E. lra.
Qed.

(** X14.  The peak solar power of line 176: when the cosine does not
    exceed 1 at the angles of the run and the product of raw power and
    efficiencies is not negative, the largest stored solar power of a
    configuration exists, is not negative, and is at most that product. *)
Theorem peak_solar_power_bounds
    (math_cos math_radians : Q -> Q) (cfg : Config) (out : State)
    (p : nat) (P_max_p : Q) :
  simulate math_cos math_radians cfg = Ok out ->
  (forall t th, theta cfg !! t = Some th ->
     math_cos (math_radians (th - 45)) <= 1) ->
  P_max cfg !! p = Some P_max_p ->
  0 <= P_max_p * eta_cell cfg * eta_mppt cfg * eta_wiring cfg ->
  exists col peak,
    getcol (N_p cfg) (P_solar_hist out) p = Ok col
    /\ np_max col = Some peak
    /\ 0 <= peak <= P_max_p * eta_cell cfg * eta_mppt cfg * eta_wiring cfg.
Proof.
  intros Hrun Hcos Hpm Hc.
  assert (Hp : (p < N_p cfg)%nat).
  { apply lookup_lt_Some in Hpm. now rewrite P_max_length in Hpm. }
  assert (Hpm' : P_max_at cfg p = P_max_p)
    by (unfold P_max_at; now rewrite Hpm).
  pose proof (N_t_pos _ _ _ _ Hrun) as Hn.
  rewrite (P_solar_column _ _ _ _ Hrun p Hp). rewrite Hpm'.
  set (f := fun t : nat => _).
  destruct (np_max_nonempty (f <$> seq 0 (N_t cfg))) as [peak Hpeak];
    [now apply column_nonempty|].
  exists (f <$> seq 0 (N_t cfg)), peak.
  split; [reflexivity|]. split; [exact Hpeak|].
  destruct (np_max_spec _ _ Hpeak) as [Hmem Hle].
  apply elem_of_column in Hmem as (t & Ht & ->).
  unfold f. destruct (1 <=? t)%nat; [|lra].
  apply solar_power_bounds; [|exact Hc].
  apply (Hcos t). now apply theta_lookup.
Qed.

Lemma coarse_cosine_le_1 (t : nat) (th : Q) :
  theta coarse_config !! t = Some th ->
  cos_approx (radians_approx (th - 45)) <= 1.
Proof.
  intros H.
  do 6 (destruct t as [|t];
        [vm_compute in H; injection H as <-; vm_compute; discriminate|]).
  vm_compute in H. discriminate.
Qed.

Lemma peak_solar_power_bounds_witness :
  simulate cos_approx radians_approx coarse_config = Ok coarse_out
  /\ (forall t th, theta coarse_config !! t = Some th ->
        cos_approx (radians_approx (th - 45)) <= 1)
  /\ exists P_max_p col peak,
       P_max coarse_config !! 3%nat = Some P_max_p
       /\ 0 <= P_max_p * 0.30 * 0.95 * 0.97
       /\ getcol 6 (P_solar_hist coarse_out) 3 = Ok col
       /\ np_max col = Some peak
       /\ 0 <= peak <= P_max_p * 0.30 * 0.95 * 0.97.
Proof.
  split; [exact coarse_run|]. split; [exact coarse_cosine_le_1|].
  assert (Hpm : P_max coarse_config !! 3%nat
                = Some (P_max_at coarse_config 3)) by reflexivity.
  assert (Hc : 0 <= P_max_at coarse_config 3 * eta_cell coarse_config
                    * eta_mppt coarse_config * eta_wiring coarse_config)
    by discriminate.
  destruct (peak_solar_power_bounds cos_approx radians_approx coarse_config
              coarse_out 3 _ coarse_run coarse_cosine_le_1 Hpm Hc)
    as (col & peak & H1 & H2 & H3).
  exists (P_max_at coarse_config 3), col, peak.
  split; [exact Hpm|]. split; [exact Hc|].
  split; [exact H1|]. split; [exact H2|exact H3].
Defined.





(** ** The single-orbit slices (lines 239-248) *)

Lemma py_slice_from_drop {A B : Type} (a : list A) (b : list B) (s : Z) :
  length a = length b ->
  exists j, (j <= length a)%nat
    /\ py_slice_from a s = drop j a /\ py_slice_from b s = drop j b
    /\ ((0 < - s <= Z.of_nat (length a))%Z ->
        (length a - j)%nat = Z.to_nat (- s))
    /\ ((s = 0 \/ Z.of_nat (length a) < - s)%Z -> j = 0%nat)
    /\ ((0 < s)%Z -> (length a - j)%nat = (length a - Z.to_nat s)%nat).
Proof.
  intros Hlen. unfold py_slice_from. rewrite <- Hlen.
  set (n := Z.of_nat (length a)).
  exists (Z.to_nat (if (s <? 0)%Z then Z.max (n + s) 0 else Z.min s n)).
  assert (Hn : n = Z.of_nat (length a)) by reflexivity. clearbody n.
  destruct (Z.ltb_spec s 0); repeat split; intros; lia.
Qed.

(** X16.  The four single-orbit series are cut at the same index, so they
    have the same length and stay aligned with the run: for a number [k]
    of steps per orbit between 1 and the length of the run they hold the
    last [k] samples; for [k = 0] (a time step longer than the orbit) and
    for [k] beyond the length of the run they hold the whole run.  With
    fewer than four panel configurations the hard-coded column 3 raises
    [IndexError]. *)
Theorem single_orbit_slices
    (math_cos math_radians : Q -> Q) (cfg : Config) (out : State) :
  simulate math_cos math_radians cfg = Ok out ->
  let k := py_int (orbit_period cfg / dt cfg) in
  ((N_p cfg <= 3)%nat ->
   SOC_orbit cfg out = Raise IndexError
   /\ P_solar_orbit cfg out = Raise IndexError)
  /\ ((3 < N_p cfg)%nat ->
      exists start SOC_o P_solar_o,
        SOC_orbit cfg out = Ok SOC_o
        /\ P_solar_orbit cfg out = Ok P_solar_o
        /\ (forall i,
              theta_orbit cfg !! i = theta cfg !! (start + i)%nat
              /\ P_load_orbit cfg out !! i = P_load_hist out !! (start + i)%nat
              /\ SOC_o !! i = cell (SOC out) (start + i) 3
              /\ P_solar_o !! i = cell (P_solar_hist out) (start + i) 3)
        /\ length (theta_orbit cfg) = (N_t cfg - start)%nat
        /\ length (P_load_orbit cfg out) = (N_t cfg - start)%nat
        /\ length SOC_o = (N_t cfg - start)%nat
        /\ length P_solar_o = (N_t cfg - start)%nat
        /\ length (eclipse_region cfg) = (N_t cfg - start)%nat
        /\ ((0 < k <= Z.of_nat (N_t cfg))%Z ->
            (N_t cfg - start)%nat = Z.to_nat k)
        /\ ((k = 0 \/ Z.of_nat (N_t cfg) < k)%Z -> start = 0%nat)).
Proof.
  intros Hrun k. split.
  - intros Hp. unfold SOC_orbit, P_solar_orbit, getcol.
    rewrite !decide_False by lia. split; reflexivity.
  - intros Hp.
    destruct (simulate_Ok_Inv _ _ _ _ Hrun) as (I & _).
    pose proof (inv_SOC_len _ _ _ _ _ _ I) as L1.
    pose proof (inv_sol_len _ _ _ _ _ _ I) as L2.
    pose proof (inv_load_len _ _ _ _ _ _ I) as L3.
    pose proof (theta_length cfg) as L4.
    destruct (py_slice_from_drop (theta cfg) (SOC out) (orbit_start cfg))
      as (j & Hj & E1 & E2 & Hk1 & Hk0 & _); [congruence|].
    destruct (py_slice_from_drop (theta cfg) (P_solar_hist out)
                (orbit_start cfg))
      as (j2 & _ & E1' & E3 & _); [congruence|].
    destruct (py_slice_from_drop (theta cfg) (P_load_hist out)
                (orbit_start cfg))
      as (j3 & _ & E1'' & E4 & _); [congruence|].
    unfold SOC_orbit, P_solar_orbit, P_load_orbit, eclipse_region, theta_orbit.
    rewrite E2. rewrite E1' in E1. rewrite E3.
    rewrite E1'' in E1'. rewrite E4. rewrite E1''.
    assert (Hjj : drop j3 (theta cfg) = drop j (theta cfg)) by congruence.
    assert (Hj2 : drop j2 (theta cfg) = drop j (theta cfg)) by congruence.
    assert (Hlen3 : (N_t cfg - j3 = N_t cfg - j)%nat).
    { apply (f_equal length) in Hjj. rewrite !length_drop, L4 in Hjj. exact Hjj. }
    assert (Hlen2 : (N_t cfg - j2 = N_t cfg - j)%nat).
    { apply (f_equal length) in Hj2. rewrite !length_drop, L4 in Hj2. exact Hj2. }
    rewrite L4 in Hj, Hk1, Hk0.
    assert (Ej3 : j3 = j \/ ((N_t cfg <= j3)%nat /\ (N_t cfg <= j)%nat)) by lia.
    assert (Ej2 : j2 = j \/ ((N_t cfg <= j2)%nat /\ (N_t cfg <= j)%nat)) by lia.
    assert (D3 : forall (A : Type) (l : list A), length l = N_t cfg ->
                   drop j3 l = drop j l).
    { intros A l Hl. destruct Ej3 as [->|[H1 H2]]; [reflexivity|].
      rewrite !drop_ge by lia. reflexivity. }
    assert (D2 : forall (A : Type) (l : list A), length l = N_t cfg ->
                   drop j2 l = drop j l).
    { intros A l Hl. destruct Ej2 as [->|[H1 H2]]; [reflexivity|].
      rewrite !drop_ge by lia. reflexivity. }
    rewrite (D3 _ (theta cfg) L4), (D3 _ (P_load_hist out) L3),
            (D2 _ (P_solar_hist out) L2).
    unfold getcol. rewrite !decide_True by exact Hp.
    pose proof (SOC_column _ _ _ _ Hrun 3 Hp) as C1.
    pose proof (P_solar_column _ _ _ _ Hrun 3 Hp) as C2.
    unfold getcol in C1, C2. rewrite decide_True in C1, C2 by exact Hp.
    rewrite (getcol_rows_drop _ _ j _ C1), (getcol_rows_drop _ _ j _ C2).
    set (f1 := fun t : nat => soc_at math_cos math_radians cfg t 3) in *.
    set (f2 := fun t : nat => if (1 <=? t)%nat then _ else _) in *.
    exists j, (drop j (f1 <$> seq 0 (N_t cfg))),
           (drop j (f2 <$> seq 0 (N_t cfg))).
    split; [reflexivity|]. split; [reflexivity|]. split.
    { intros i. rewrite !lookup_drop. split; [reflexivity|].
      split; [reflexivity|].
      destruct (decide (j + i < N_t cfg)%nat) as [Hlt|Hge].
      - rewrite !list_lookup_fmap, lookup_seq_lt by exact Hlt. cbn.
        rewrite (run_SOC _ _ _ _ Hrun) by assumption. split; [reflexivity|].
        unfold f2. destruct (j + i)%nat as [|t] eqn:Et.
        + now rewrite (run_solar_first _ _ _ _ Hrun) by exact Hp.
        + now rewrite (run_solar _ _ _ _ Hrun) by (exact Hp || lia).
      - rewrite !list_lookup_fmap, lookup_seq_ge by lia. cbn.
        unfold cell. rewrite !(lookup_ge_None_2 _ (j + i)) by lia.
        split; reflexivity. }
    rewrite length_fmap, !length_drop, !length_fmap, length_seq, L3, L4.
    repeat (split; [reflexivity|]).
    unfold orbit_start in Hk1, Hk0. fold k in Hk1, Hk0.
    rewrite Z.opp_involutive in Hk1, Hk0.
    split; [exact Hk1|]. intros [->|H]; apply Hk0; [now left|now right].
Qed.

Lemma single_orbit_slices_witness :
  simulate cos_approx radians_approx coarse_config = Ok coarse_out
  /\ py_int (orbit_period coarse_config / dt coarse_config) = 3%Z
  /\ exists SOC_o P_solar_o,
       SOC_orbit coarse_config coarse_out = Ok SOC_o
       /\ P_solar_orbit coarse_config coarse_out = Ok P_solar_o
       /\ length (theta_orbit coarse_config) = 3%nat
       /\ length (P_load_orbit coarse_config coarse_out) = 3%nat
       /\ length SOC_o = 3%nat
       /\ length P_solar_o = 3%nat.
Proof.
  split; [exact coarse_run|]. split; [reflexivity|].
  destruct (single_orbit_slices cos_approx radians_approx coarse_config
              coarse_out coarse_run) as (_ & H).
  destruct H as (j & so & po & H1 & H2 & _ & L1 & L2 & L3 & L4 & _ & Hk & _);
    [vm_compute; lia|].
  assert (E : (N_t coarse_config - j)%nat = 3%nat).
  { rewrite Hk; [reflexivity|]. vm_compute. split; [reflexivity|discriminate]. }
  exists so, po. rewrite L1, L2, L3, L4, E. repeat split; assumption.
Defined.

(** With a time step longer than the orbit the "last orbit" is the whole
    mission: [-int(orbit_period / dt)] is [-0]. *)
Example long_step_whole_run :
  let cfg := mkConfig 6000 (95 * 60) 2 1361 (0.1 * 0.1) 0.5 [1; 2; 3; 4]%Z
               0.30 0.95 0.97 0.5 0.8 0.7 0.5 15.0 (15 * 60)
               10.0 0.2 0.99 0.6 0.20 (0.02 / 30) in
  orbit_start cfg = 0%Z /\ theta_orbit cfg = theta cfg.
Proof. split; vm_compute; reflexivity. Qed.

(** X17.  In the single-orbit series the solar power is zero wherever the
    eclipse shading is on. *)
Theorem shaded_region_has_no_solar_power
    (math_cos math_radians : Q -> Q) (cfg : Config) (out : State)
    (P_solar_o : list Q) (i : nat) (v : Q) :
  simulate math_cos math_radians cfg = Ok out ->
  P_solar_orbit cfg out = Ok P_solar_o ->
  eclipse_region cfg !! i = Some true ->
  P_solar_o !! i = Some v ->
  v == 0.
Proof.
  intros Hrun Hpo Hreg Hv.
  destruct (le_lt_dec (N_p cfg) 3) as [Hp|Hp].
  { destruct (single_orbit_slices _ _ _ _ Hrun) as (H & _).
    destruct (H Hp) as (_ & H'). congruence. }
  destruct (single_orbit_slices _ _ _ _ Hrun) as (_ & H).
  destruct (H Hp) as (j & so & po & _ & H2 & Hi & _).
  assert (po = P_solar_o) by congruence. subst po.
  destruct (Hi i) as (Hth & _ & _ & Hsol).
  unfold eclipse_region in Hreg. rewrite list_lookup_fmap, Hth in Hreg.
  destruct (theta cfg !! (j + i)%nat) as [th|] eqn:Eth; [|discriminate].
  cbn in Hreg. injection Hreg as Hreg.
  assert (Ht : (j + i < N_t cfg)%nat).
  { apply lookup_lt_Some in Eth. now rewrite theta_length in Eth. }
  rewrite theta_lookup in Eth by exact Ht. injection Eth as <-.
  rewrite Hv in Hsol. symmetry in Hsol.
  destruct (j + i)%nat as [|t] eqn:Et.
  - rewrite (run_solar_first _ _ _ _ Hrun) in Hsol by exact Hp.
    injection Hsol as <-. reflexivity.
  - rewrite (run_solar _ _ _ _ Hrun) in Hsol by (exact Hp || lia).
    injection Hsol as <-.
    apply eclipse_step with (x := 0). unfold geom, geometry_of. cbn [eclipse].
    unfold eclipse_of. now rewrite Hreg.
Qed.

Lemma shaded_region_has_no_solar_power_witness :
  simulate cos_approx radians_approx coarse_config = Ok coarse_out
  /\ exists P_solar_o v,
       P_solar_orbit coarse_config coarse_out = Ok P_solar_o
       /\ eclipse_region coarse_config !! 2%nat = Some true
       /\ P_solar_o !! 2%nat = Some v
       /\ v == 0.
Proof.
  split; [exact coarse_run|].
  do 2 eexists. split; [vm_compute; reflexivity|].
  split; [vm_compute; reflexivity|]. split; [vm_compute; reflexivity|].
  eapply (shaded_region_has_no_solar_power cos_approx radians_approx
            coarse_config coarse_out _ 2 _ coarse_run);
    vm_compute; reflexivity.
Defined.
